(** * macq: action-model data structures, ARMS constraint generation and the
      progress wrapper, embedded from the Python sources.

    Layout of the development:
    - [Py]        the fragment of Python the sources rely on: exceptions,
                  sets and their iteration order, dictionaries, negative
                  indexing, loops that may raise, [str] of a float, and the
                  formulas of the [nnf] package;
    - [Core]      src/core.py ([Predicate], [Effect], [Action]);
    - [Arms]      src/macq/extract/arms.py ([Relation], [ARMS]);
    - [Progress]  src/macq/utils/progress.py ([vanilla_progress]);
    - [Scenario]  concrete corpora and a concrete interpreter run;
    - [PyFacts], [CoreFacts], [ArmsFacts], [ProgressFacts]: the theorems. *)

From Stdlib Require Import ZArith QArith List String Ascii Bool Lia Permutation.
From Stdlib Require Import Floats Uint63 DecimalString.
Import ListNotations.
Local Open Scope string_scope.
Local Open Scope Z_scope.

(* ================================================================== *)
(** * Python fragment *)
(* ================================================================== *)

Module Py.

(** Exceptions the modelled code can raise. *)
Inductive PyExn : Type :=
| ValueError (msg : string)
| TypeError
| OverflowError
| ZeroDivisionError
| KeyError
| IndexError
| Exception (msg : string)
| IncompatibleObservationToken.

(** A computation that returns or raises. *)
Inductive result (A : Type) : Type :=
| Ok (a : A)
| Raise (e : PyExn).
Arguments Ok {A} a.
Arguments Raise {A} e.

Definition bind {A B : Type} (m : result A) (k : A -> result B) : result B :=
  match m with
  | Ok a => k a
  | Raise e => Raise e
  end.

Notation "x <- m ;; k" := (bind m (fun x => k))
  (at level 61, m at next level, right associativity).
Notation "' p <- m ;; k" := (bind m (fun x => match x with p => k end))
  (at level 61, p pattern, m at next level, right associativity).

(** [" ".join(parts)]. *)
Fixpoint join (sep : string) (parts : list string) : string :=
  match parts with
  | [] => ""
  | [p] => p
  | p :: rest => p ++ sep ++ join sep rest
  end.

(** [x in xs] for a list, with [==] given by [eqb]. *)
Definition contains {A : Type} (eqb : A -> A -> bool) (x : A) (xs : list A) : bool :=
  existsb (eqb x) xs.

(** ** Sets

    A Python [set] is modelled by the list of its elements in the order the
    interpreter iterates them.  Python leaves that order unspecified: it
    is fixed by the hash table's layout, hence by the elements' hashes and
    by the order of insertion when hashes collide.  [set_iter] is the order
    the interpreter gives a set whose distinct elements were inserted in the
    order listed; [str_hash] is the built-in [hash] on strings.

    Which strings the built-in [int] reads is the interpreter's as well: the
    decimal literals, whose digits and blanks are the Unicode ones, up to
    the number of digits the interpreter allows (4300 by default from
    Python 3.11, unbounded before).  [int_accepts s] tells whether [int(s)]
    returns; otherwise it raises [ValueError]. *)
Record Runtime : Type := mkRuntime {
  set_iter : forall A : Type, list A -> list A;
  str_hash : string -> Z;
  int_accepts : string -> bool
}.

(** What every interpreter guarantees: iteration visits each element once. *)
Definition lawful (rt : Runtime) : Prop :=
  forall (A : Type) (l : list A), Permutation (set_iter rt A l) l.

(** [s.add(x)] where [same] identifies elements (equal hash and [==]). *)
Definition set_add {A : Type} (same : A -> A -> bool) (s : list A) (x : A) : list A :=
  if existsb (fun y => same y x) s then s else s ++ [x].

(** [set(xs)]. *)
Definition py_set {A : Type} (rt : Runtime) (same : A -> A -> bool) (xs : list A) : list A :=
  set_iter rt A (fold_left (set_add same) xs []).

(** [a.issubset(b)], [a == b] and [a.intersection(b)] for sets of strings. *)
Definition issubset (a b : list string) : bool :=
  forallb (fun x => contains String.eqb x b) a.

Definition set_eqb (a b : list string) : bool :=
  andb (issubset a b) (issubset b a).

Definition intersection (rt : Runtime) (a b : list string) : list string :=
  set_iter rt string (filter (fun x => contains String.eqb x b) a).

(** Truth value of a container: [if s:]. *)
Definition nonempty {A : Type} (s : list A) : bool :=
  match s with [] => false | _ :: _ => true end.

(** ** Dictionaries

    Insertion-ordered association lists.  Assigning to a key already
    present replaces the value and keeps the key and its position. *)
Definition dict (K V : Type) : Type := list (K * V).

Fixpoint dict_set {K V : Type} (same : K -> K -> bool) (d : dict K V) (k : K) (v : V)
    : dict K V :=
  match d with
  | [] => [(k, v)]
  | (k', v') :: rest =>
      if same k' k then (k', v) :: rest else (k', v') :: dict_set same rest k v
  end.

Fixpoint dict_get {K V : Type} (same : K -> K -> bool) (d : dict K V) (k : K) : option V :=
  match d with
  | [] => None
  | (k', v') :: rest => if same k' k then Some v' else dict_get same rest k
  end.

(** [d[k]]. *)
Definition dict_item {K V : Type} (same : K -> K -> bool) (d : dict K V) (k : K) : result V :=
  match dict_get same d k with
  | Some v => Ok v
  | None => Raise KeyError
  end.

Definition keys {K V : Type} (d : dict K V) : list K := map fst d.
Definition values {K V : Type} (d : dict K V) : list V := map snd d.

(** [sum(counts)]. *)
Definition total (counts : list Z) : Z := fold_right Z.add 0 counts.

(** [dict(pairs)]. *)
Definition dict_of {K V : Type} (same : K -> K -> bool) (pairs : list (K * V)) : dict K V :=
  fold_left (fun d kv => dict_set same d (fst kv) (snd kv)) pairs [].

(** ** Sequences *)

(** [xs[i]]: a negative index counts from the end. *)
Definition index {A : Type} (xs : list A) (i : Z) : result A :=
  let n := Z.of_nat (List.length xs) in
  let j := if i <? 0 then i + n else i in
  if orb (j <? 0) (n <=? j) then Raise IndexError
  else match nth_error xs (Z.to_nat j) with
       | Some x => Ok x
       | None => Raise IndexError
       end.

(** [enumerate(xs)]. *)
Definition enumerate {A : Type} (xs : list A) : list (nat * A) :=
  combine (seq 0 (List.length xs)) xs.

(** A loop whose body may raise: the state is threaded, the first
    exception ends the loop. *)
Fixpoint for_each {A S : Type} (xs : list A) (body : S -> A -> result S) (st : S)
    : result S :=
  match xs with
  | [] => Ok st
  | x :: rest => st' <- body st x ;; for_each rest body st'
  end.

(** A comprehension or an appending loop whose element expression may raise. *)
Fixpoint collect {A B : Type} (f : A -> result B) (xs : list A) : result (list B) :=
  match xs with
  | [] => Ok []
  | x :: rest => y <- f x ;; ys <- collect f rest ;; Ok (y :: ys)
  end.

(** ** Floats

    A Python [float] is an IEEE binary64, here the kernel's [float]. *)

(** The double nearest to the int [z], ties to the even mantissa; an
    infinity when [z] is beyond the largest double.  Python ints are
    unbounded. *)
Definition float_of_Z (z : Z) : float :=
  SF2Prim (binary_normalize prec emax z 0 false).

Definition is_inf (f : float) : bool :=
  orb (PrimFloat.eqb f PrimFloat.infinity) (PrimFloat.eqb f PrimFloat.neg_infinity).

(** The conversion of an int operand that meets a float operand:
    [OverflowError] when the int is too large for a double. *)
Definition float_of_int (z : Z) : result float :=
  let f := float_of_Z z in
  if is_inf f then Raise OverflowError else Ok f.

(** The int [z] as the exact value [z * 2^0]. *)
Definition exact_of_Z (z : Z) : spec_float :=
  match z with
  | Z0 => S754_zero false
  | Zpos p => S754_finite false p 0
  | Zneg p => S754_finite true p 0
  end.

(** [a / b] on two ints: the double nearest to the exact quotient (Python
    rounds the quotient once, not the operands), [ZeroDivisionError] for a
    zero divisor, [OverflowError] when the quotient is too large for a
    double. *)
Definition int_true_div (a b : Z) : result float :=
  if b =? 0 then Raise ZeroDivisionError
  else match SFdiv prec emax (exact_of_Z a) (exact_of_Z b) with
       | S754_infinity _ => Raise OverflowError
       | q => Ok (SF2Prim q)
       end.

(** [a / f] on an int and a float: the int is converted, then the doubles
    are divided. *)
Definition int_float_div (a : Z) (f : float) : result float :=
  x <- float_of_int a ;;
  if PrimFloat.eqb f PrimFloat.zero then Raise ZeroDivisionError
  else Ok (PrimFloat.div x f).

(** [d * 10^k ?= c * 2^e], on integers. *)
Definition compare_scaled (d k c e : Z) : comparison :=
  Z.compare (d * 10 ^ Z.max k 0 * 2 ^ Z.max (- e) 0)
            (c * 2 ^ Z.max e 0 * 10 ^ Z.max (- k) 0).

(** [floor (c * 2^e / 10^k)]. *)
Definition floor_scaled (c e k : Z) : Z :=
  (c * 2 ^ Z.max e 0 * 10 ^ Z.max (- k) 0) / (2 ^ Z.max (- e) 0 * 10 ^ Z.max k 0).

Fixpoint raise_exponent (fuel : nat) (c e p : Z) : Z :=
  match fuel with
  | O => p
  | S fuel' =>
      match compare_scaled 1 (p + 1) c e with
      | Gt => p
      | _ => raise_exponent fuel' c e (p + 1)
      end
  end.

(** [floor (log10 (c * 2^e))]: an estimate from the binary logarithm, one
    below at most three too small, then raised. *)
Definition exponent10 (c e : Z) : Z :=
  raise_exponent 4 c e ((Z.log2 c + e) * 30103 / 100000 - 1).

(** Whether the decimal [d * 10^k] reads back as the double [m * 2^e]: it
    lies between the midpoints to the neighbouring doubles, the midpoints
    included when [m] is even. *)
Definition reads_back (m e d k : Z) : bool :=
  let lo := if andb (m =? 2 ^ 52) (-1074 <? e) then 4 * m - 1 else 4 * m - 2 in
  let hi := 4 * m + 2 in
  let above := compare_scaled d k lo (e - 2) in
  let below := compare_scaled d k hi (e - 2) in
  if Z.even m
  then andb (match above with Lt => false | _ => true end)
            (match below with Gt => false | _ => true end)
  else andb (match above with Gt => true | _ => false end)
            (match below with Lt => true | _ => false end).

(** The shortest decimal [d * 10^k] that reads back as [m * 2^e], the
    nearest one among those of that length; [n] counts digits, from 1. *)
Fixpoint shortest (fuel : nat) (m e p n : Z) : Z * Z :=
  let k := p - n + 1 in
  let d_lo := floor_scaled (4 * m) (e - 2) k in
  let d_hi := d_lo + 1 in
  let pick :=
    match reads_back m e d_lo k, reads_back m e d_hi k with
    | true, true =>
        match compare_scaled (d_lo + d_hi) k (8 * m) (e - 2) with
        | Gt => Some d_lo
        | Lt => Some d_hi
        | Eq => Some (if Z.even d_lo then d_lo else d_hi)
        end
    | true, false => Some d_lo
    | false, true => Some d_hi
    | false, false => None
    end in
  match pick, fuel with
  | Some d, _ => (d, k)
  | None, S fuel' => shortest fuel' m e p (n + 1)
  | None, O => (d_lo, k)
  end.

Fixpoint strip_zeros (fuel : nat) (d k : Z) : Z * Z :=
  match fuel with
  | O => (d, k)
  | S fuel' =>
      if andb (d mod 10 =? 0) (0 <? d) then strip_zeros fuel' (d / 10) (k + 1)
      else (d, k)
  end.

Definition decimal (z : Z) : string := NilZero.string_of_int (Z.to_int z).

Fixpoint zeros (n : nat) : string :=
  match n with O => "" | S n' => "0" ++ zeros n' end.

Definition substring_from (n : nat) (s : string) : string :=
  substring n (String.length s - n) s.

(** [repr] of the positive double [m * 2^e]: exponent notation when the
    decimal point falls at or left of [-4] or right of [16]. *)
Definition format_finite (m e : Z) : string :=
  let p := exponent10 (4 * m) (e - 2) in
  let '(d0, k0) := shortest 17 m e p 1 in
  let '(d, k) := strip_zeros 20 d0 k0 in
  let digits := decimal d in
  let n := Z.of_nat (String.length digits) in
  let decpt := k + n in
  if orb (decpt <=? -4) (16 <? decpt) then
    let x := decpt - 1 in
    let mantissa :=
      if n =? 1 then digits
      else substring 0 1 digits ++ "." ++ substring_from 1 digits in
    let ex := decimal (Z.abs x) in
    mantissa ++ "e" ++ (if x <? 0 then "-" else "+")
      ++ (if Z.abs x <? 10 then "0" ++ ex else ex)
  else if decpt <=? 0 then "0." ++ zeros (Z.to_nat (- decpt)) ++ digits
  else if n <=? decpt then digits ++ zeros (Z.to_nat (decpt - n)) ++ ".0"
  else substring 0 (Z.to_nat decpt) digits ++ "."
         ++ substring_from (Z.to_nat decpt) digits.

(** [str(f)] and [repr(f)] of a float. *)
Definition float_str (f : float) : string :=
  match Prim2SF f with
  | S754_nan => "nan"
  | S754_infinity s => if s then "-inf" else "inf"
  | S754_zero s => if s then "-0.0" else "0.0"
  | S754_finite s m e => (if s then "-" else "") ++ format_finite (Zpos m) e
  end.

(** [s[i]] on a string. *)
Definition char_at (s : string) (i : nat) : result ascii :=
  match String.get i s with
  | Some c => Ok c
  | None => Raise IndexError
  end.

(** [int(c)] on a one-character string. *)
Definition int_of_char (c : ascii) : result Z :=
  let n := nat_of_ascii c in
  if andb (Nat.leb 48 n) (Nat.leb n 57) then Ok (Z.of_nat n - 48)
  else Raise (ValueError "invalid literal for int() with base 10").

(** ** Formulas of the [nnf] package, as far as the sources build them *)
#[warnings="-register-all"]
Inductive NNF : Type :=
| Var (name : string) (truth : bool)
| And (children : list NNF)
| Or (children : list NNF).

(** [Var(a).negate()]. *)
Fixpoint negate (f : NNF) : NNF :=
  match f with
  | Var n t => Var n (negb t)
  | And cs => Or (map negate cs)
  | Or cs => And (map negate cs)
  end.

(** Truth of a formula under an assignment: an empty [Or] is false, an
    empty [And] is true. *)
Fixpoint eval (rho : string -> bool) (f : NNF) : bool :=
  match f with
  | Var n t => Bool.eqb (rho n) t
  | And cs => forallb (eval rho) cs
  | Or cs => existsb (eval rho) cs
  end.

End Py.
Import Py.

(* ================================================================== *)
(** * src/core.py *)
(* ================================================================== *)

Module Core.

(** The values a caller can pass as a probability: Python is untyped, so
    [set_prob] may receive any of these.  A [float] is an IEEE binary64. *)
Inductive PyVal : Type :=
| VInt (z : Z)
| VBool (b : bool)
| VFloat (f : float)
| VStr (s : string)
| VNone.

(** [int(prob)], kept only for whether it raises: the source binds the
    result to [test_int] and never reads it. *)
Definition int_check (rt : Runtime) (prob : PyVal) : result unit :=
  match prob with
  | VInt _ | VBool _ => Ok tt
  | VFloat f =>
      if PrimFloat.is_nan f then Raise (ValueError "cannot convert float NaN to integer")
      else if is_inf f then Raise OverflowError
      else Ok tt
  | VStr s => if int_accepts rt s then Ok tt else Raise (ValueError "invalid literal for int()")
  | VNone => Raise TypeError
  end.

(** [prob < n] and [prob > n] for the ints the source compares with, 0 and
    100, which a double holds exactly. *)
Definition lt_int (prob : PyVal) (n : Z) : result bool :=
  match prob with
  | VInt z => Ok (z <? n)
  | VBool b => Ok ((if b then 1 else 0) <? n)
  | VFloat f => Ok (PrimFloat.ltb f (float_of_Z n))
  | VStr _ | VNone => Raise TypeError
  end.

Definition gt_int (prob : PyVal) (n : Z) : result bool :=
  match prob with
  | VInt z => Ok (n <? z)
  | VBool b => Ok (n <? (if b then 1 else 0))
  | VFloat f => Ok (PrimFloat.ltb (float_of_Z n) f)
  | VStr _ | VNone => Raise TypeError
  end.

(** [Effect.set_prob]. *)
Definition set_prob (rt : Runtime) (prob : PyVal) : result PyVal :=
  match int_check rt prob with
  | Raise (ValueError _) =>
      Raise (ValueError "Must enter an integer value for probability.")
  | Raise e => Raise e
  | Ok _ =>
      below <- lt_int prob 0 ;;
      if below then Ok (VInt 0)
      else
        above <- gt_int prob 100 ;;
        if above then Ok (VInt 100) else Ok prob
  end.

Record Predicate : Type := mkPredicate {
  name : string;
  objects : list string
}.

Record Effect : Type := mkEffect {
  eff_pred : Predicate;          (* the [Predicate] part: name, objects *)
  func : string;
  probability : PyVal
}.

(** [Effect.__init__(name, objects, func, probability)]. *)
Definition Effect_init (rt : Runtime) (name : string) (objects : list string)
    (func : string) (probability : PyVal) : result Effect :=
  p <- set_prob rt probability ;;
  Ok (mkEffect (mkPredicate name objects) func p).

Record Action : Type := mkAction {
  act_name : string;
  obj_params : list string;
  precond : list Predicate;
  effects : list Effect
}.

(** [Action.__init__(name, obj_params)]. *)
Definition Action_init (name : string) (obj_params : list string) : Action :=
  mkAction name obj_params [] [].

Definition object_error : PyExn :=
  Exception "Object must be one of the objects supplied to the action".

(** The loop shared by [add_effect] and [add_precond]:
    [for obj in objects: if obj not in self.obj_params: raise Exception(...)]. *)
Fixpoint check_objects (self : Action) (objects : list string) : result unit :=
  match objects with
  | [] => Ok tt
  | obj :: rest =>
      if negb (contains String.eqb obj (obj_params self)) then Raise object_error
      else check_objects self rest
  end.

(** A method call on an action returns or raises, and leaves the action in
    some state either way. *)
Definition method (A : Type) : Type := Action -> result A * Action.

(** [Action.add_effect(name, objects, func, probability)].  The argument
    [probability] is received and not used: the constructor is called with
    the literal [100]. *)
Definition add_effect (rt : Runtime) (name : string) (objects : list string)
    (func : string) (probability : PyVal) : method unit :=
  fun self =>
    match check_objects self objects with
    | Raise e => (Raise e, self)
    | Ok _ =>
        match Effect_init rt name objects func (VInt 100) with
        | Raise e => (Raise e, self)
        | Ok effect =>
            (Ok tt,
             mkAction (act_name self) (obj_params self) (precond self)
                      (effects self ++ [effect]))
        end
    end.

(** [Action.add_precond(name, objects)]. *)
Definition add_precond (name : string) (objects : list string) : method unit :=
  fun self =>
    match check_objects self objects with
    | Raise e => (Raise e, self)
    | Ok _ =>
        (Ok tt,
         mkAction (act_name self) (obj_params self)
                  (precond self ++ [mkPredicate name objects]) (effects self))
    end.

(** ** Vocabulary of the statements about [Action] *)

(** Every object of [objects] is a parameter of [a]. *)
Definition known (a : Action) (objects : list string) : Prop :=
  Forall (fun obj => In obj (obj_params a)) objects.

(** ** Sequences of calls on one action *)







End Core.

(* ================================================================== *)
(** * src/macq/extract/arms.py *)
(* ================================================================== *)

Module Arms.

(** ** Collaborators imported by arms.py

    arms.py imports [Fluent], [ObservationLists], [PartialObservation],
    [LearnedAction] and [Model] from modules that are not among the
    sources.  Their declarations below follow the spec's data model and the
    attributes arms.py reads. *)

(** Modelled from the spec: a planning object, with the declared type
    [_step1] and [_step2] read as [obj.obj_type], and a name. *)
Record PlanningObject : Type := mkObject {
  obj_type : string;
  obj_name : string
}.

(** Modelled from the spec: a fluent is a name and an ordered sequence of
    objects ([f.name], [f.objects]). *)
Record Fluent : Type := mkFluent {
  fl_name : string;
  fl_objects : list PlanningObject
}.

(** Modelled from the spec: a grounded action of a trace, a name and an
    ordered sequence of objects ([obs_action.name], [obs_action.obj_params]). *)
Record Action : Type := mkAction {
  act_name : string;
  act_params : list PlanningObject
}.

(** Modelled from the spec: [LearnedAction] has a name and a set of
    parameter types.  [_step1] builds it with
    [LearnedAction(obs_action.name, types)] and reads [.obj_params]. *)
Record LearnedAction : Type := mkLearned {
  la_name : string;
  la_params : list string            (* a set of type names *)
}.

(** Modelled from the spec: one step of a trace as the learner sees it,
    the action ([obs.action]) and the state ([obs.state]), either
    unobserved ([None]) or a map from fluents to [True], [False] or [None]
    (hidden). *)
Record Observation : Type := mkObs {
  obs_action : Action;
  obs_state : option (list (Fluent * option bool))
}.

(** Modelled from the spec: the token type a corpus was built with;
    [ARMS] accepts [PartialObservation] only. *)
Inductive ObservationType : Type :=
| PartialObservation
| IdentityObservation
| OtherObservation.

(** Modelled from the spec: a corpus, its token type ([obs_lists.type])
    and its traces, each an ordered sequence of observations. *)
Record ObservationLists : Type := mkObsLists {
  ol_type : ObservationType;
  traces : list (list Observation)
}.

(** Modelled from the spec: the output artifact [Model(fluents, actions)]. *)
Record Model : Type := mkModel {
  fluents : list Fluent;               (* a set *)
  actions : list LearnedAction         (* a set *)
}.

(** [details()] of a grounded action and of a learned action: string keys
    defined outside the sources, taken as parameters. *)
Record Details : Type := mkDetails {
  action_details : Action -> string;
  learned_details : LearnedAction -> string
}.

Definition object_eqb (a b : PlanningObject) : bool :=
  andb (String.eqb (obj_type a) (obj_type b)) (String.eqb (obj_name a) (obj_name b)).

Fixpoint objects_eqb (xs ys : list PlanningObject) : bool :=
  match xs, ys with
  | [], [] => true
  | x :: xs', y :: ys' => andb (object_eqb x y) (objects_eqb xs' ys')
  | _, _ => false
  end.

(** Modelled from the spec: two fluents (two actions) are equal iff name
    and object sequence match. *)
Definition fluent_eqb (f g : Fluent) : bool :=
  andb (String.eqb (fl_name f) (fl_name g)) (objects_eqb (fl_objects f) (fl_objects g)).

Definition action_eqb (a b : Action) : bool :=
  andb (String.eqb (act_name a) (act_name b)) (objects_eqb (act_params a) (act_params b)).

(** Modelled from the spec: learned actions are compared by name and
    parameter-type set, the key [details()] being canonical. *)
Definition learned_eqb (a b : LearnedAction) : bool :=
  andb (String.eqb (la_name a) (la_name b)) (set_eqb (la_params a) (la_params b)).

(** [if val:] on an observed truth value. *)
Definition truthy (val : option bool) : bool :=
  match val with Some true => true | _ => false end.

(** Modelled from the spec: [ObservationLists.get_fluents] is not in the
    sources; the corpus exposes the set of distinct fluents seen across all
    traces' observed states. *)
Definition get_fluents (rt : Runtime) (obs_lists : ObservationLists) : list Fluent :=
  py_set rt fluent_eqb
    (flat_map (fun obs_list =>
       flat_map (fun obs =>
         match obs_state obs with
         | Some items => map fst items
         | None => []
         end) obs_list) (traces obs_lists)).

(** Modelled from the spec: [ObservationLists.get_actions] is not in the
    sources; the corpus supplies the set of action instances seen. *)
Definition get_actions (rt : Runtime) (obs_lists : ObservationLists) : list Action :=
  py_set rt action_eqb
    (flat_map (fun obs_list => map obs_action obs_list) (traces obs_lists)).

(** ** [Relation] *)

Record Relation : Type := mkRelation {
  rel_name : string;
  types : list string                (* a set of type names *)
}.

(** [Relation.var]: the name, a blank, and the types as the set iterates
    them, blank-separated. *)
Definition var (self : Relation) : string :=
  rel_name self ++ " " ++ join " " (types self).

(** [Relation.__hash__]. *)
Definition Relation_hash (rt : Runtime) (self : Relation) : Z :=
  str_hash rt (var self).

(** [Relation.__eq__], generated by [@dataclass]: field-wise [==]. *)
Definition Relation_eqb (r1 r2 : Relation) : bool :=
  andb (String.eqb (rel_name r1) (rel_name r2)) (set_eqb (types r1) (types r2)).

(** Membership in a [set] or [dict] of relations: same hash and [==]. *)
Definition Relation_same (rt : Runtime) (r1 r2 : Relation) : bool :=
  andb (Relation_hash rt r1 =? Relation_hash rt r2) (Relation_eqb r1 r2).

(** The relation [_step2] derives from a fluent:
    [Relation(f.name, set([obj.obj_type for obj in f.objects]))]. *)
Definition relation_of (rt : Runtime) (f : Fluent) : Relation :=
  mkRelation (fl_name f) (py_set rt String.eqb (map obj_type (fl_objects f))).

(** ** [ARMS._step1] *)

Definition Connected : Type := dict LearnedAction (dict LearnedAction (list string)).

(** The inner loop: [for a2 in actions[i:]: ...], filling
    [connected_actions[a1]]. *)
Definition connect_from (rt : Runtime) (a1 : LearnedAction) (rest : list LearnedAction)
    : dict LearnedAction (list string) :=
  fold_left (fun inner a2 =>
    let intersection := intersection rt (la_params a1) (la_params a2) in
    if nonempty intersection then dict_set learned_eqb inner a2 intersection
    else inner) rest [].

(** The first loop of [_step1]: one [LearnedAction] per grounded action,
    its objects replaced by their types. *)
Definition learned_actions (rt : Runtime) (obs_lists : ObservationLists)
    : list LearnedAction :=
  map (fun obs_action =>
    let types := py_set rt String.eqb (map obj_type (act_params obs_action)) in
    mkLearned (act_name obs_action) types) (get_actions rt obs_lists).

Definition _step1 (rt : Runtime) (obs_lists : ObservationLists) : Connected :=
  let actions := learned_actions rt obs_lists in
  fold_left (fun connected_actions ia =>
    let '(i, a1) := ia in
    dict_set learned_eqb connected_actions a1 (connect_from rt a1 (skipn i actions)))
    (enumerate actions) [].

(** [a2 in connected_actions[a1]], with the set it maps to. *)
Definition connection (c : Connected) (a1 a2 : LearnedAction) : option (list string) :=
  match dict_get learned_eqb c a1 with
  | Some inner => dict_get learned_eqb inner a2
  | None => None
  end.

(** ** [ARMS._step2A] *)

Definition implication (a b : string) : NNF :=
  Or [negate (Var a true); Var b true].

(** A1: [relation in action.add => relation not in action.precond]. *)
Definition A1_add (dt : Details) (action : LearnedAction) (relation : Relation) : NNF :=
  implication (var relation ++ "_in_add_" ++ learned_details dt action)
              (var relation ++ "_notin_pre_" ++ learned_details dt action).

(** A1: [relation in action.precond => relation not in action.add]. *)
Definition A1_pre (dt : Details) (action : LearnedAction) (relation : Relation) : NNF :=
  implication (var relation ++ "_in_pre_" ++ learned_details dt action)
              (var relation ++ "_notin_add_" ++ learned_details dt action).

(** A2: [relation in action.del => relation in action.precond]. *)
Definition A2_del (dt : Details) (action : LearnedAction) (relation : Relation) : NNF :=
  implication (var relation ++ "_in_del_" ++ learned_details dt action)
              (var relation ++ "_in_pre_" ++ learned_details dt action).

Definition _step2A (rt : Runtime) (dt : Details) (connected_actions : Connected)
    (relations : list Relation) : list NNF :=
  let actions := py_set rt learned_eqb (keys connected_actions) in
  fold_left (fun constraints action =>
    fold_left (fun constraints relation =>
      if issubset (types relation) (la_params action)
      then (((constraints ++ [A1_add dt action relation])
               ++ [A1_pre dt action relation])
               ++ [A2_del dt action relation])%list
      else constraints) relations constraints) actions [].

(** ** [ARMS._step2I] *)

Definition SupportKey : Type := (Relation * Action * string)%type.

Definition key_same (rt : Runtime) (k k' : SupportKey) : bool :=
  let '(r, a, role) := k in
  let '(r', a', role') := k' in
  andb (Relation_same rt r r') (andb (action_eqb a a') (String.eqb role role')).

Definition Support : Type := dict SupportKey Z.

(** [support_counts[key] += 1] on a [defaultdict(int)]. *)
Definition count_up (rt : Runtime) (support_counts : Support) (key : SupportKey) : Support :=
  let old := match dict_get (key_same rt) support_counts key with
             | Some n => n
             | None => 0
             end in
  dict_set (key_same rt) support_counts key (old + 1).

(** The body of the innermost loop, for one [(fluent, val)] of the state
    observed at position [i] of [obs_list]. *)
Definition step2I_item (rt : Runtime) (dt : Details) (relations : dict Fluent Relation)
    (obs_list : list Observation) (i : nat) (obs : Observation)
    (st : list NNF * Support) (item : Fluent * option bool)
    : result (list NNF * Support) :=
  let '(constraints, support_counts) := st in
  let '(fluent, val) := item in
  if truthy val then
    (* I1 *)
    i1 <- collect (fun obs_i =>
            let a_i := obs_action obs_i in
            r <- dict_item fluent_eqb relations fluent ;;
            Ok (Var (var r ++ "_in_add_" ++ action_details dt a_i) true))
          (firstn i obs_list) ;;
    (* I2 *)
    r <- dict_item fluent_eqb relations fluent ;;
    prev <- index obs_list (Z.of_nat i - 1) ;;
    let i2 := Var (var r ++ "_notin_del_" ++ action_details dt (obs_action prev)) true in
    let constraints := (constraints ++ [And [Or i1; i2]])%list in
    (* I3 *)
    if Z.of_nat i <? Z.of_nat (List.length obs_list) - 1 then
      r <- dict_item fluent_eqb relations fluent ;;
      Ok (constraints, count_up rt support_counts (r, obs_action obs, "pre"))
    else
      r <- dict_item fluent_eqb relations fluent ;;
      prev <- index obs_list (Z.of_nat i - 1) ;;
      Ok (constraints, count_up rt support_counts (r, obs_action prev, "add"))
  else Ok (constraints, support_counts).

Definition step2I_obs (rt : Runtime) (dt : Details) (relations : dict Fluent Relation)
    (obs_list : list Observation) (st : list NNF * Support) (io : nat * Observation)
    : result (list NNF * Support) :=
  let '(i, obs) := io in
  match obs_state obs with
  | Some items => for_each items (step2I_item rt dt relations obs_list i obs) st
  | None => Ok st
  end.

Definition _step2I (rt : Runtime) (dt : Details) (obs_lists : ObservationLists)
    (relations : dict Fluent Relation) : result (list NNF * Support) :=
  for_each (traces obs_lists)
    (fun st obs_list =>
       for_each (enumerate obs_list) (step2I_obs rt dt relations obs_list) st)
    ([], []).

(** ** [ARMS._step2], [ARMS._arms], [ARMS.__new__] *)

(** The block that would turn support counts into rates sits inside a
    string literal in the source: it is never run, and the function returns
    the empty list once both passes have returned. *)
Definition _step2 (rt : Runtime) (dt : Details) (obs_lists : ObservationLists)
    (connected_actions : Connected) (fluents : list Fluent) : result (list NNF) :=
  let relations : dict Fluent Relation :=
    dict_of fluent_eqb (map (fun f => (f, relation_of rt f)) fluents) in
  let action_constraints :=
    _step2A rt dt connected_actions (py_set rt (Relation_same rt) (values relations)) in
  '(info_constraints, support_counts) <- _step2I rt dt obs_lists relations ;;
  Ok [].

(** The disabled block, as it is written inside the string literal:
    [z_sigma_p = max(support_counts.values())] and
    [support_rate[pair] = support_count / z_sigma_p].  Nothing calls it. *)
Definition support_rate_block (support_counts : Support) : dict SupportKey Q :=
  let z_sigma_p := fold_right Z.max 0 (values support_counts) in
  map (fun kv => (fst kv, (inject_Z (snd kv) / inject_Z z_sigma_p)%Q)) support_counts.

Definition _arms (rt : Runtime) (dt : Details) (obs_lists : ObservationLists)
    (fluents : list Fluent) : result (list LearnedAction) :=
  let connected_actions := _step1 rt obs_lists in
  constraints <- _step2 rt dt obs_lists connected_actions fluents ;;
  Ok [].

Definition _check_goal (obs_lists : ObservationLists) : bool := true.

Definition _get_fluents (rt : Runtime) (obs_lists : ObservationLists) : list Fluent :=
  get_fluents rt obs_lists.

(** [ARMS.__new__]. *)
Definition ARMS (rt : Runtime) (dt : Details) (obs_lists : ObservationLists)
    : result Model :=
  match ol_type obs_lists with
  | PartialObservation =>
      let _ := _check_goal obs_lists in
      let fluents := _get_fluents rt obs_lists in
      actions <- _arms rt dt obs_lists fluents ;;
      Ok (mkModel fluents actions)
  | _ => Raise IncompatibleObservationToken
  end.

(** ** Vocabulary of the statements about [ARMS] *)

(** The relations [_step2] hands to [_step2I] for a corpus. *)
Definition relations_of (rt : Runtime) (obs_lists : ObservationLists)
    : dict Fluent Relation :=
  dict_of fluent_eqb (map (fun f => (f, relation_of rt f)) (get_fluents rt obs_lists)).

(** [S] is the non-empty set of types [a1] and [a2] have in common. *)
Definition shared (a1 a2 : LearnedAction) (S : list string) : Prop :=
  S <> [] /\ forall x, In x S <-> In x (la_params a1) /\ In x (la_params a2).

(** Two learned actions with a parameter type in common. *)
Definition common (a b : LearnedAction) : Prop :=
  exists x, In x (la_params a) /\ In x (la_params b).

(** The outer loop of [_step1], along the list it enumerates. *)
Fixpoint connect_all (rt : Runtime) (c : Connected) (suffix : list LearnedAction)
    : Connected :=
  match suffix with
  | [] => c
  | a1 :: rest =>
      connect_all rt (dict_set learned_eqb c a1 (connect_from rt a1 (a1 :: rest))) rest
  end.

(** An interpreter whose sets iterate in an order fixed by their elements
    alone. *)
Definition canonical (rt : Runtime) : Prop :=
  forall l1 l2 : list string,
    Permutation l1 l2 -> py_set rt String.eqb l1 = py_set rt String.eqb l2.

(** What one (action, relation) pair contributes. *)
Definition pair_constraints (dt : Details) (action : LearnedAction) (relation : Relation)
    : list NNF :=
  if issubset (types relation) (la_params action)
  then [A1_add dt action relation; A1_pre dt action relation; A2_del dt action relation]
  else [].

(** The variable "[r] is in the add list of the action of [o]", and
    "[r] is not in the delete list of the action of [o]". *)
Definition in_add (dt : Details) (r : Relation) (o : Observation) : NNF :=
  Var (var r ++ "_in_add_" ++ action_details dt (obs_action o)) true.

Definition notin_del (dt : Details) (r : Relation) (o : Observation) : NNF :=
  Var (var r ++ "_notin_del_" ++ action_details dt (obs_action o)) true.

(** The step [obs_list[i-1]] reads: the one before position [i], and for
    [i = 0] the last of the trace. *)
Definition before (obs_list : list Observation) (i : nat) : option Observation :=
  match i with
  | O => nth_error obs_list (List.length obs_list - 1)
  | S j => nth_error obs_list j
  end.

(** The constraint one state item contributes at position [i]. *)
Definition item_constraints (dt : Details) (relations : dict Fluent Relation)
    (obs_list : list Observation) (i : nat) (item : Fluent * option bool) : list NNF :=
  if truthy (snd item) then
    match dict_get fluent_eqb relations (fst item), before obs_list i with
    | Some r, Some prev =>
        [And [Or (map (in_add dt r) (firstn i obs_list)); notin_del dt r prev]]
    | _, _ => []
    end
  else [].

Definition obs_constraints (dt : Details) (relations : dict Fluent Relation)
    (obs_list : list Observation) (io : nat * Observation) : list NNF :=
  match obs_state (snd io) with
  | Some items => flat_map (item_constraints dt relations obs_list (fst io)) items
  | None => []
  end.

Definition trace_constraints (dt : Details) (relations : dict Fluent Relation)
    (obs_list : list Observation) : list NNF :=
  flat_map (obs_constraints dt relations obs_list) (enumerate obs_list).

(** Every fluent some step observes true has a relation. *)
Definition covers (relations : dict Fluent Relation) (obs_lists : ObservationLists) : Prop :=
  forall obs_list obs items fluent,
    In obs_list (traces obs_lists) -> In obs obs_list ->
    obs_state obs = Some items -> In (fluent, Some true) items ->
    dict_get fluent_eqb relations fluent <> None.

(** Step [i] of trace [obs_list] of the corpus observes [fluent] true. *)
Definition observes_true (obs_lists : ObservationLists) (obs_list : list Observation)
    (i : nat) (fluent : Fluent) : Prop :=
  In obs_list (traces obs_lists)
  /\ exists obs items,
       nth_error obs_list i = Some obs /\ obs_state obs = Some items
       /\ In (fluent, Some true) items.

(** Some step observes a fluent true for which [relations] has no entry. *)
Definition uncovered (relations : dict Fluent Relation) (obs_lists : ObservationLists)
    : Prop :=
  exists obs_list obs items fluent,
    In obs_list (traces obs_lists) /\ In obs obs_list
    /\ obs_state obs = Some items /\ In (fluent, Some true) items
    /\ dict_get fluent_eqb relations fluent = None.

(** The state entries of a step that are true. *)
Definition true_items (obs : Observation) : list (Fluent * option bool) :=
  match obs_state obs with
  | Some items => filter (fun item => truthy (snd item)) items
  | None => []
  end.

(** The state of the pass: one support was counted per constraint, every
    count is at least 1 and is filed under the role "pre" or "add". *)
Definition counted (st : list NNF * Support) : Prop :=
  total (values (snd st)) = Z.of_nat (List.length (fst st))
  /\ forall r a role n, In ((r, a, role), n) (snd st) ->
                        1 <= n /\ (role = "pre" \/ role = "add").

(** How many times the corpus observes a fluent true. *)
Definition true_observations (obs_lists : ObservationLists) : nat :=
  List.length (flat_map (fun obs_list => flat_map true_items obs_list) (traces obs_lists)).

End Arms.

(* ================================================================== *)
(** * src/macq/utils/progress.py *)
(* ================================================================== *)

Module Progress.

Section Wrapper.

(** The values an iterable yields, and how the ints of a [range] sit
    among them. *)
Variable A : Type.
Variable of_int : Z -> A.

(** What [vanilla_progress] tells apart: a [range], another iterable with
    [__len__] (a list, a tuple), and one without (a generator).  The list
    holds what iterating yields; a range's [step] is not 0. *)
Inductive Iterable : Type :=
| PyRange (start stop step : Z)
| Sized (xs : list A)
| Unsized (xs : list A).

(** [len(range(start, stop, step))]. *)
Definition range_len (start stop step : Z) : Z :=
  if 0 <? step then (if start <? stop then (stop - start - 1) / step + 1 else 0)
  else (if stop <? start then (start - stop - 1) / (- step) + 1 else 0).

Definition items (iterable : Iterable) : list A :=
  match iterable with
  | PyRange start stop step =>
      map (fun i => of_int (start + Z.of_nat i * step))
          (seq 0 (Z.to_nat (range_len start stop step)))
  | Sized xs | Unsized xs => xs
  end.

(** The local [total]: a float for a range, an int for a sized iterable,
    [None] otherwise. *)
Inductive Total : Type :=
| NoTotal
| IntTotal (n : Z)
| FloatTotal (f : float).

(** [(stop - start) / step] for a range, on ints of any size; [len] for a
    sized iterable. *)
Definition total_of (iterable : Iterable) : result Total :=
  match iterable with
  | PyRange start stop step =>
      total <- int_true_div (stop - start) step ;;
      Ok (FloatTotal total)
  | Sized xs => Ok (IntTotal (Z.of_nat (List.length xs)))
  | Unsized _ => Ok NoTotal
  end.

(** [it / total]. *)
Definition divide (it : Z) (total : Total) : result float :=
  match total with
  | NoTotal => Raise TypeError
  | IntTotal n => int_true_div it n
  | FloatTotal f => int_float_div it f
  end.

(** [int(str(it / total)[2])]. *)
Definition progress_digit (it : Z) (total : Total) : result Z :=
  q <- divide it total ;;
  c <- char_at (float_str q) 2 ;;
  int_of_char c.

(** What a consumer that drains the generator observes: the values
    yielded, the lines printed, and whether iteration ended normally or
    with an exception. *)
Record Run : Type := mkRun {
  yielded : list A;
  printed : list string;
  outcome : result unit
}.

Definition yield (i : A) (lines : list string) (rest : Run) : Run :=
  mkRun (i :: yielded rest) (lines ++ printed rest)%list (outcome rest).

(** The [for] loop of [__iter__], with the locals [it] and [prev]. *)
Fixpoint loop (total : Total) (xs : list A) (it prev : Z) : Run :=
  match xs with
  | [] => mkRun [] [] (Ok tt)
  | i :: rest =>
      (* yield i *)
      match total with
      | NoTotal => yield i [] (loop total rest (it + 1) prev)
      | _ =>
          match progress_digit it total with
          | Raise e => mkRun [i] [] (Raise e)
          | Ok new =>
              if negb (new =? prev) then
                yield i [if new =? 0 then "100%" else decimal new ++ "0% ..."]
                      (loop total rest (it + 1) new)
              else yield i [] (loop total rest (it + 1) prev)
          end
      end
  end.

(** [vanilla_progress(iterable).__iter__()], drained. *)
Definition vanilla_progress (iterable : Iterable) : Run :=
  match total_of iterable with
  | Raise e => mkRun [] [] (Raise e)
  | Ok total => loop total (items iterable) 1 0
  end.

End Wrapper.

Arguments PyRange {A} start stop step.
Arguments loop {A} total xs it prev.
Arguments items {A} of_int iterable.
Arguments total_of {A} iterable.
Arguments vanilla_progress {A} of_int iterable.
Arguments yield {A} i lines rest.
Arguments Sized {A} xs.
Arguments Unsized {A} xs.
Arguments yielded {A} r.
Arguments printed {A} r.
Arguments outcome {A} r.
Arguments mkRun {A} yielded printed outcome.

(** ** Vocabulary of the statements about [vanilla_progress] *)



(** Whether the progress digit can be computed at every position of an
    iterable of [n] elements whose [total] is [total]. *)
Definition digits_computable (total : Total) (n : nat) : bool :=
  forallb (fun k => match progress_digit (1 + Z.of_nat k) total with
                    | Ok _ => true
                    | Raise _ => false
                    end) (seq 0 n).

(** The same for every list of at most [bound] elements, and for every
    [range(n)] with [n] at most [bound]. *)
Definition lists_computable (bound : nat) : bool :=
  forallb (fun n => digits_computable (IntTotal (Z.of_nat n)) n) (seq 0 (S bound)).

Definition ranges_computable (bound : nat) : bool :=
  forallb (fun n =>
             match int_true_div (Z.of_nat n - 0) 1 with
             | Ok total => digits_computable (FloatTotal total) n
             | Raise _ => false
             end)
          (seq 0 (S bound)).

End Progress.

(* ================================================================== *)
(** * Concrete inputs *)
(* ================================================================== *)

Module Scenario.
Import Arms.

(** The unkeyed CPython string hash (multiplier 1000003) on 64 bits.
    CPython 3 keys its string hash per process; one fixed function stands
    for one process. *)
Definition mask64 : Z := 2 ^ 64 - 1.

Fixpoint hash_chars (x : Z) (s : string) : Z :=
  match s with
  | EmptyString => x
  | String c rest =>
      hash_chars (Z.land (Z.lxor (1000003 * x) (Z.of_nat (nat_of_ascii c))) mask64) rest
  end.

Definition legacy_hash (s : string) : Z :=
  match s with
  | EmptyString => 0
  | String c _ =>
      Z.lxor (hash_chars (Z.shiftl (Z.of_nat (nat_of_ascii c)) 7) s)
             (Z.of_nat (String.length s))
  end.

(** The ASCII blanks: the space, tab to carriage return, and the four
    separators. *)
Definition is_space (c : ascii) : bool :=
  let n := nat_of_ascii c in
  orb (Nat.eqb n 32)
      (orb (andb (Nat.leb 9 n) (Nat.leb n 13)) (andb (Nat.leb 28 n) (Nat.leb n 31))).

Definition is_digit (c : ascii) : bool :=
  let n := nat_of_ascii c in andb (Nat.leb 48 n) (Nat.leb n 57).

Fixpoint lstrip (s : string) : string :=
  match s with
  | String c rest => if is_space c then lstrip rest else s
  | EmptyString => s
  end.

(** Digits with single underscores between them, then optional blanks. *)
Fixpoint digits_tail (after_digit : bool) (s : string) : bool :=
  match s with
  | EmptyString => after_digit
  | String c rest =>
      if is_digit c then digits_tail true rest
      else if Ascii.eqb c "_"%char then
        andb after_digit
             (match rest with
              | String d _ => andb (is_digit d) (digits_tail false rest)
              | EmptyString => false
              end)
      else andb after_digit
                (andb (is_space c)
                      (match lstrip rest with EmptyString => true | _ => false end))
  end.

(** The ASCII decimal literals [int] reads: blanks, a sign, digits with
    single underscores between them, blanks. *)
Definition ascii_int_literal (s : string) : bool :=
  match lstrip s with
  | String c rest =>
      if orb (Ascii.eqb c "+"%char) (Ascii.eqb c "-"%char)
      then digits_tail false rest
      else digits_tail false (String c rest)
  | EmptyString => false
  end.

(** An interpreter run in which sets iterate in insertion order.  CPython
    iterates a set slot by slot of its hash table; of two elements whose
    hashes meet in one slot the later one is moved on by probing, so the
    order in which such elements come out follows the order in which they
    went in.  Its [int] reads the ASCII decimal literals of any length (the
    digit limit of Python 3.11 switched off); the examples pass it ASCII
    text only. *)
Definition insertion_order : Runtime :=
  mkRuntime (fun _ l => l) legacy_hash ascii_int_literal.

(** Modelled from the spec: [details()] is not in the sources; the spec
    calls it a canonical string key combining the name and the parameters. *)
Definition object_details (o : PlanningObject) : string :=
  obj_type o ++ " " ++ obj_name o.

Definition spec_details : Details :=
  mkDetails
    (fun a => act_name a ++ " " ++ join " " (map object_details (act_params a)))
    (fun la => la_name la ++ " " ++ join " " (la_params la)).

Definition block (n : string) : PlanningObject := mkObject "object" n.
Definition holding (x : PlanningObject) : Fluent := mkFluent "holding" [x].
Definition pick_up (x : PlanningObject) : Action := mkAction "pick-up" [x].
Definition put_down (x : PlanningObject) : Action := mkAction "put-down" [x].

(** One trace: [pick-up(x)] with [holding(x)] observed false before it,
    then a step that observes [holding(x)] true. *)
Definition pick_then_hold (x : PlanningObject) : list Observation :=
  [ mkObs (pick_up x) (Some [(holding x, Some false)]);
    mkObs (put_down x) (Some [(holding x, Some true)]) ].

(** The end-to-end corpus: two actions, two traces. *)
Definition corpus : ObservationLists :=
  mkObsLists PartialObservation [pick_then_hold (block "a"); pick_then_hold (block "b")].

(** A trace of a single step that observes [holding(a)] true. *)
Definition single_step : ObservationLists :=
  mkObsLists PartialObservation [[mkObs (pick_up (block "a")) (Some [(holding (block "a"), Some true)])]].

(** A trace whose first step already observes [holding(a)] true. *)
Definition holding_at_start : ObservationLists :=
  mkObsLists PartialObservation
    [[ mkObs (put_down (block "a")) (Some [(holding (block "a"), Some true)]);
       mkObs (pick_up (block "a")) (Some [(holding (block "a"), Some false)]) ]].

(** Two fluents of the same name over the same types, in the two argument
    orders. *)
Definition at_stone_location : Fluent :=
  mkFluent "at" [mkObject "stone" "stone-11"; mkObject "location" "pos-10-07"].

Definition at_location_stone : Fluent :=
  mkFluent "at" [mkObject "location" "pos-10-07"; mkObject "stone" "stone-11"].

Definition learned_pick_up : LearnedAction := mkLearned "pick-up" ["object"].
Definition learned_put_down : LearnedAction := mkLearned "put-down" ["object"].

End Scenario.

(* ================================================================== *)
(** * Theorems *)
(* ================================================================== *)

Module PyFacts.

Lemma contains_In (x : string) (xs : list string) :
  contains String.eqb x xs = true <-> In x xs.
Proof.
  unfold contains. rewrite existsb_exists. split.
  - intros (y & Hy & E). apply String.eqb_eq in E. now subst.
  - intros H. exists x. split; [assumption | apply String.eqb_refl].
Qed.

Lemma issubset_spec (a b : list string) :
  issubset a b = true <-> (forall x, In x a -> In x b).
Proof.
  unfold issubset. rewrite forallb_forall.
  split; intros H x Hx; apply contains_In; auto.
Qed.

Lemma set_eqb_spec (a b : list string) :
  set_eqb a b = true <-> (forall x, In x a <-> In x b).
Proof.
  unfold set_eqb. rewrite andb_true_iff, !issubset_spec.
  split.
  - intros [H1 H2] x. split; auto.
  - intros H. split; intros x; apply H.
Qed.

Lemma set_eqb_refl (a : list string) : set_eqb a a = true.
Proof. apply set_eqb_spec. tauto. Qed.

Lemma set_eqb_sym (a b : list string) : set_eqb a b = set_eqb b a.
Proof. unfold set_eqb. apply andb_comm. Qed.

Lemma set_eqb_trans (a b c : list string) :
  set_eqb a b = true -> set_eqb b c = true -> set_eqb a c = true.
Proof.
  rewrite !set_eqb_spec. intros H1 H2 x. rewrite H1. apply H2.
Qed.

Lemma set_iter_In (rt : Runtime) (Hrt : lawful rt) (A : Type) (l : list A) (x : A) :
  In x (set_iter rt A l) <-> In x l.
Proof.
  split; apply Permutation_in; [apply Hrt | symmetry; apply Hrt].
Qed.

Lemma intersection_In (rt : Runtime) (Hrt : lawful rt) (a b : list string) (x : string) :
  In x (intersection rt a b) <-> In x a /\ In x b.
Proof.
  unfold intersection. rewrite (set_iter_In rt Hrt), filter_In, contains_In. tauto.
Qed.

Lemma nonempty_spec {A : Type} (s : list A) : nonempty s = true <-> s <> [].
Proof. destruct s; simpl; split; congruence. Qed.

(** An invariant of the accumulator survives a loop that preserves it. *)
Lemma fold_left_inv {A B : Type} (P : A -> Prop) (f : A -> B -> A) (l : list B) :
  (forall a b, In b l -> P a -> P (f a b)) ->
  forall a, P a -> P (fold_left f l a).
Proof.
  induction l as [| b l IH]; simpl; intros Hf a Ha; [assumption |].
  apply IH.
  - intros a' b' Hb'. apply Hf. now right.
  - apply Hf; [now left | assumption].
Qed.

Section Dict.
Context {K V : Type} (same : K -> K -> bool).

Lemma dict_get_In (d : dict K V) (k : K) (v : V) :
  dict_get same d k = Some v -> exists k', In (k', v) d /\ same k' k = true.
Proof.
  induction d as [| [k' v'] d IH]; simpl; [discriminate |].
  destruct (same k' k) eqn:E.
  - intros [= ->]. exists k'. auto.
  - intros H. destruct (IH H) as (k'' & Hin & Hs). exists k''. auto.
Qed.

Lemma dict_set_In (d : dict K V) (k : K) (v : V) (k' : K) (v' : V) :
  In (k', v') (dict_set same d k v) ->
  In (k', v') d \/ (v' = v /\ (k' = k \/ same k' k = true)).
Proof.
  induction d as [| [k0 v0] d IH]; simpl.
  - intros [[= <- <-] | []]. right. auto.
  - destruct (same k0 k) eqn:E; simpl.
    + intros [[= <- <-] | H]; [right | left]; auto.
    + intros [H | H]; [left; auto |].
      destruct (IH H) as [H' | H']; [left | right]; auto.
Qed.

Hypothesis same_refl : forall a, same a a = true.
Hypothesis same_sym : forall a b, same a b = same b a.
Hypothesis same_trans : forall a b c, same a b = true -> same b c = true -> same a c = true.

Lemma same_congr (a b c : K) : same a b = true -> same c a = same c b.
Proof.
  intros H. destruct (same c a) eqn:E1, (same c b) eqn:E2; try reflexivity.
  - rewrite (same_trans c a b E1 H) in E2. discriminate.
  - rewrite same_sym in H. rewrite (same_trans c b a E2 H) in E1. discriminate.
Qed.

Lemma dict_get_same (d : dict K V) (q q' : K) :
  same q q' = true -> dict_get same d q = dict_get same d q'.
Proof.
  intros H. induction d as [| [k v] d IH]; simpl; [reflexivity |].
  rewrite (same_congr q q' k H), IH. reflexivity.
Qed.

Lemma dict_get_set_same (d : dict K V) (k : K) (v : V) :
  dict_get same (dict_set same d k v) k = Some v.
Proof.
  induction d as [| [k' v'] d IH]; simpl.
  - now rewrite same_refl.
  - destruct (same k' k) eqn:E; simpl; rewrite E; [reflexivity | exact IH].
Qed.

Lemma dict_get_set_other (d : dict K V) (k q : K) (v : V) :
  same k q = false -> dict_get same (dict_set same d k v) q = dict_get same d q.
Proof.
  intros H. induction d as [| [k' v'] d IH]; simpl.
  - now rewrite H.
  - destruct (same k' k) eqn:E; simpl.
    + rewrite (same_sym k' q), (same_congr k' k q E), (same_sym q k), H.
      reflexivity.
    + now rewrite IH.
Qed.

End Dict.

(** *** Loops that may raise *)

(** A loop whose body, on each element, returns or raises [e] and nothing
    else, returns or raises [e]. *)
Lemma for_each_ok_or {A S : Type} (e : PyExn) (xs : list A) (body : S -> A -> result S) :
  (forall st x, In x xs -> body st x = Raise e \/ exists st', body st x = Ok st') ->
  forall st, for_each xs body st = Raise e \/ exists st', for_each xs body st = Ok st'.
Proof.
  induction xs as [| x xs IH]; intros H st; cbn [for_each].
  - right. eauto.
  - destruct (H st x (or_introl eq_refl)) as [E | (st' & E)]; rewrite E; cbn [bind].
    + now left.
    + apply IH. intros st0 y Hy. apply H. now right.
Qed.

(** If besides the body raises [e] on one element whatever the state, the
    loop raises [e]. *)
Lemma for_each_raises {A S : Type} (e : PyExn) (xs : list A) (body : S -> A -> result S) :
  (forall st x, In x xs -> body st x = Raise e \/ exists st', body st x = Ok st') ->
  (exists x, In x xs /\ forall st, body st x = Raise e) ->
  forall st, for_each xs body st = Raise e.
Proof.
  induction xs as [| x xs IH]; intros H (y & Hy & Hraise) st; [destruct Hy |].
  cbn [for_each].
  destruct (H st x (or_introl eq_refl)) as [E | (st' & E)]; rewrite E; cbn [bind];
    [reflexivity |].
  destruct Hy as [<- | Hy]; [rewrite Hraise in E; discriminate |].
  apply IH; [intros st0 z Hz; apply H; now right | eauto].
Qed.

(** An invariant of the state that every returning body step preserves
    holds when the loop returns. *)
Lemma for_each_inv {A S : Type} (P : S -> Prop) (xs : list A) (body : S -> A -> result S) :
  (forall st x st', In x xs -> body st x = Ok st' -> P st -> P st') ->
  forall st st', for_each xs body st = Ok st' -> P st -> P st'.
Proof.
  induction xs as [| x xs IH]; intros H st st'; cbn [for_each].
  - intros [= <-]. auto.
  - destruct (body st x) as [st1 |] eqn:E; cbn [bind]; [| discriminate].
    intros E' HP. apply (IH (fun s y s' Hy => H s y s' (or_intror Hy)) st1 st' E').
    apply (H st x st1 (or_introl eq_refl) E HP).
Qed.

(** *** Counters in a dictionary *)

(** Adding one to the counter of a key, created at 0 when missing, adds one
    to the total of the counters. *)
Lemma counter_total {K : Type} (same : K -> K -> bool) (d : dict K Z) (k : K) :
  total (values (dict_set same d k
                   (match dict_get same d k with Some n => n | None => 0 end + 1)))
  = total (values d) + 1.
Proof.
  unfold total, values.
  induction d as [| [k' v'] d IH]; simpl in *; [reflexivity |].
  destruct (same k' k); simpl; [lia |].
  rewrite IH. lia.
Qed.

(** *** Sets and dictionaries whose [same] decides equality *)

Section Distinct.
Context {A : Type} (same : A -> A -> bool).
Hypothesis same_refl : forall a, same a a = true.
Hypothesis same_sym : forall a b, same a b = same b a.

(** [s.add(x)] keeps a set free of repetitions, also up to [same]. *)
Lemma set_add_distinct (s : list A) (x : A) :
  NoDup s /\ (forall a b, In a s -> In b s -> same a b = true -> a = b) ->
  NoDup (set_add same s x)
  /\ (forall a b, In a (set_add same s x) -> In b (set_add same s x) ->
                  same a b = true -> a = b).
Proof.
  intros [Hn Hd]. unfold set_add.
  destruct (existsb (fun y => same y x) s) eqn:E; [now split |].
  assert (Hx : forall y, In y s -> same y x = false).
  { intros y Hy. destruct (same y x) eqn:Ey; [| reflexivity].
    assert (T : existsb (fun y => same y x) s = true)
      by (apply existsb_exists; now exists y).
    congruence. }
  split.
  - apply NoDup_app; [assumption | repeat constructor; intros [] |].
    intros a Ha [Ea | []]. subst a. specialize (Hx x Ha).
    rewrite same_refl in Hx. discriminate.
  - intros a b Ha Hb Hab.
    apply in_app_iff in Ha. apply in_app_iff in Hb. simpl in Ha, Hb.
    destruct Ha as [Ha | [<- | []]], Hb as [Hb | [<- | []]].
    + now apply Hd.
    + rewrite (Hx a Ha) in Hab. discriminate.
    + rewrite same_sym, (Hx b Hb) in Hab. discriminate.
    + reflexivity.
Qed.

Lemma set_of_distinct (l : list A) :
  forall acc,
    NoDup acc /\ (forall a b, In a acc -> In b acc -> same a b = true -> a = b) ->
    NoDup (fold_left (set_add same) l acc)
    /\ (forall a b, In a (fold_left (set_add same) l acc) ->
                    In b (fold_left (set_add same) l acc) -> same a b = true -> a = b).
Proof.
  induction l as [| x l IH]; intros acc H; [exact H |].
  cbn [fold_left]. apply IH. now apply set_add_distinct.
Qed.

(** Iterating a set visits no element twice, also up to [same]. *)
Lemma py_set_distinct (rt : Runtime) (Hrt : lawful rt) (l : list A) :
  NoDup (py_set rt same l)
  /\ (forall a b, In a (py_set rt same l) -> In b (py_set rt same l) ->
                  same a b = true -> a = b).
Proof.
  destruct (set_of_distinct l []) as [Hn Hd].
  { split; [constructor | intros a b []]. }
  unfold py_set. split.
  - apply (Permutation_NoDup (Permutation_sym (Hrt A _))). exact Hn.
  - intros a b Ha Hb. apply Hd.
    + apply (Permutation_in _ (Hrt A _)). exact Ha.
    + apply (Permutation_in _ (Hrt A _)). exact Hb.
Qed.

End Distinct.

(** Pairing two repetition-free lists gives each pair once. *)
Lemma list_prod_NoDup {A B : Type} (l : list A) (l' : list B) :
  NoDup l -> NoDup l' -> NoDup (list_prod l l').
Proof.
  intros Hl Hl'. induction Hl as [| x l Hx Hl IH]; simpl; [constructor |].
  apply NoDup_app.
  - apply NoDup_map_NoDup_ForallPairs; [| exact Hl'].
    intros a b _ _ E. now injection E.
  - exact IH.
  - intros [a b] Hab Hin. apply in_map_iff in Hab. destruct Hab as (y & E & _).
    injection E as <- <-. apply in_prod_iff in Hin. now destruct Hin.
Qed.

Section Decided.
Context {K : Type} (same : K -> K -> bool).
Hypothesis same_eq : forall a b, same a b = true <-> a = b.

Lemma decided_refl (a : K) : same a a = true.
Proof. now apply same_eq. Qed.

Lemma decided_sym (a b : K) : same a b = same b a.
Proof.
  destruct (same a b) eqn:E1, (same b a) eqn:E2; try reflexivity.
  - apply same_eq in E1. subst. rewrite decided_refl in E2. discriminate.
  - apply same_eq in E2. subst. rewrite decided_refl in E1. discriminate.
Qed.

Lemma decided_trans (a b c : K) : same a b = true -> same b c = true -> same a c = true.
Proof. rewrite !same_eq. congruence. Qed.

Lemma distinct_In (l : list K) (x : K) :
  forall acc, In x (fold_left (set_add same) l acc) <-> In x acc \/ In x l.
Proof.
  induction l as [| y l IH]; simpl; intros acc; [tauto |].
  rewrite IH. unfold set_add. split.
  - intros [H | H]; [| auto].
    destruct (existsb (fun z => same z y) acc); [auto |].
    apply in_app_iff in H. simpl in H. intuition.
  - intros [H | [-> | H]]; [| | auto].
    + left. destruct (existsb (fun z => same z y) acc); [assumption |].
      apply in_app_iff. auto.
    + left. destruct (existsb (fun z => same z x) acc) eqn:E.
      * apply existsb_exists in E. destruct E as (z & Hz & Ez).
        apply same_eq in Ez. now subst.
      * apply in_app_iff. simpl. auto.
Qed.

Lemma dict_set_keeps_key {V : Type} (d : dict K V) (k q : K) (v : V) :
  dict_get same d q <> None -> dict_get same (dict_set same d k v) q <> None.
Proof.
  intros H. destruct (same k q) eqn:E.
  - apply same_eq in E. subst q.
    rewrite (dict_get_set_same same decided_refl). discriminate.
  - now rewrite (dict_get_set_other same decided_sym decided_trans).
Qed.

Lemma dict_of_covers {V : Type} (pairs : list (K * V)) (k : K) :
  In k (map fst pairs) -> dict_get same (dict_of same pairs) k <> None.
Proof.
  unfold dict_of. generalize (@nil (K * V)).
  induction pairs as [| [k' v'] pairs IH]; intros acc H; [destruct H |].
  cbn [fold_left fst snd].
  assert (Keep : forall acc0 : dict K V,
             dict_get same acc0 k <> None ->
             dict_get same (fold_left (fun d kv => dict_set same d (fst kv) (snd kv))
                                      pairs acc0) k <> None).
  { clear IH H. induction pairs as [| kv pairs IH']; intros acc0 H0; [exact H0 |].
    cbn [fold_left]. apply IH'. now apply dict_set_keeps_key. }
  destruct H as [E | H]; [| now apply IH].
  simpl in E. subst k'. apply Keep.
  rewrite (dict_get_set_same same decided_refl). discriminate.
Qed.

End Decided.

(** [str] of a float, on values whose Python output is well known. *)
Example float_str_samples :
  map float_str
      [ PrimFloat.div (float_of_Z 1) (float_of_Z 3);
        PrimFloat.div (float_of_Z 2) (float_of_Z 3);
        PrimFloat.add (PrimFloat.div (float_of_Z 1) (float_of_Z 10))
                      (PrimFloat.div (float_of_Z 2) (float_of_Z 10));
        PrimFloat.div (float_of_Z 100000) (float_of_Z 3);
        PrimFloat.div (float_of_Z 1) (float_of_Z 10000);
        PrimFloat.div (float_of_Z 1) (float_of_Z 100000);
        PrimFloat.div (float_of_Z 1) (float_of_Z 30000);
        float_of_Z (10 ^ 15);
        float_of_Z (10 ^ 16);
        float_of_Z (-5);
        float_of_Z 0 ]
  = [ "0.3333333333333333"; "0.6666666666666666"; "0.30000000000000004";
      "33333.333333333336"; "0.0001"; "1e-05"; "3.3333333333333335e-05";
      "1000000000000000.0"; "1e+16"; "-5.0"; "0.0" ].
Proof. vm_compute. reflexivity. Qed.

(** Ints are unbounded: conversion and division round once, to the nearest
    double, and raise where no double is near. *)
Example int_division_samples :
  float_str (float_of_Z (2 ^ 63)) = "9.223372036854776e+18"
  /\ float_of_Z (2 ^ 53 + 1) = float_of_Z (2 ^ 53)
  /\ float_of_int (2 ^ 1024) = Raise OverflowError
  /\ int_true_div (2 ^ 70) (2 ^ 68) = Ok 4%float
  /\ int_true_div (10 ^ 400) (10 ^ 399) = Ok 10%float
  /\ int_true_div (2 ^ 1024) 1 = Raise OverflowError
  /\ int_true_div 1 0 = Raise ZeroDivisionError
  /\ int_float_div 1 0%float = Raise ZeroDivisionError
  /\ int_float_div (2 ^ 1024) 2%float = Raise OverflowError.
Proof. repeat split; vm_compute; reflexivity. Qed.

End PyFacts.
Import PyFacts.

Module CoreFacts.
Import Core.

(** ** [Effect.set_prob] *)

Lemma set_prob_int (rt : Runtime) (z : Z) :
  set_prob rt (VInt z) = Ok (VInt (Z.max 0 (Z.min 100 z))).
Proof.
  unfold set_prob; simpl.
  destruct (Z.ltb_spec z 0) as [H | H]; simpl.
  - f_equal. f_equal. lia.
  - destruct (Z.ltb_spec 100 z) as [H' | H']; simpl; do 2 f_equal; lia.
Qed.

Lemma Effect_init_int (rt : Runtime) (name : string) (objects : list string)
    (func : string) (z : Z) :
  Effect_init rt name objects func (VInt z)
  = Ok (mkEffect (mkPredicate name objects) func (VInt (Z.max 0 (Z.min 100 z)))).
Proof. unfold Effect_init. rewrite set_prob_int. reflexivity. Qed.

(** A string never becomes a probability: [int] rejects it, or the
    comparison with [0] does. *)
Lemma set_prob_str (rt : Runtime) (s : string) :
  exists e, set_prob rt (VStr s) = Raise e.
Proof.
  unfold set_prob; simpl. destruct (int_accepts rt s); simpl; eauto.
Qed.

Lemma set_prob_none (rt : Runtime) : set_prob rt VNone = Raise TypeError.
Proof. reflexivity. Qed.

Example set_prob_samples :
  map (set_prob Scenario.insertion_order)
      [VInt 150; VInt (-3); VInt 94; VBool true; VStr "abc"; VStr "50"]
  = [ Ok (VInt 100); Ok (VInt 0); Ok (VInt 94); Ok (VBool true);
      Raise (ValueError "Must enter an integer value for probability.");
      Raise TypeError ].
Proof. reflexivity. Qed.

(** C4 (the code at the failing input).  [int(50.5)] succeeds, so the guard
    meant to reject non-integers lets a float through: [set_prob] returns
    [50.5] itself and the constructor stores it; no error is raised.  The
    integer half of the claim is [set_prob_int]. *)
Theorem set_prob_accepts_float (rt : Runtime) :
  set_prob rt (VFloat 50.5%float) = Ok (VFloat 50.5%float)
  /\ Effect_init rt "eff" ["block 1"] "func1" (VFloat 50.5%float)
     = Ok (mkEffect (mkPredicate "eff" ["block 1"]) "func1" (VFloat 50.5%float)).
Proof. split; vm_compute; reflexivity. Qed.

(** ** [Action.add_effect], [Action.add_precond] *)

Lemma check_objects_known (a : Action) (objects : list string) :
  known a objects -> check_objects a objects = Ok tt.
Proof.
  induction 1 as [| obj rest Hobj _ IH]; simpl; [reflexivity |].
  apply contains_In in Hobj. rewrite Hobj. simpl. exact IH.
Qed.

Lemma check_objects_unknown (a : Action) (objects : list string) :
  ~ known a objects -> check_objects a objects = Raise object_error.
Proof.
  unfold known. induction objects as [| obj rest IH]; simpl; intros H.
  - exfalso. apply H. constructor.
  - destruct (contains String.eqb obj (obj_params a)) eqn:E; simpl; [| reflexivity].
    apply IH. intros Hrest. apply H. constructor; [| assumption].
    now apply contains_In.
Qed.

(** C9.  Whatever probability the caller passes, the effect appended by
    [add_effect] stores 100: the argument is not forwarded. *)
Theorem add_effect_stores_100 (rt : Runtime) (a : Action) (name : string)
    (objects : list string) (func : string) (p : PyVal) :
  known a objects ->
  add_effect rt name objects func p a
  = (Ok tt,
     mkAction (act_name a) (obj_params a) (precond a)
              (effects a ++ [mkEffect (mkPredicate name objects) func (VInt 100)])).
Proof.
  intros H. unfold add_effect. rewrite (check_objects_known _ _ H).
  rewrite Effect_init_int. reflexivity.
Qed.

Lemma add_effect_stores_100_witness :
  let a := Action_init "put down" ["block 1"; "block 2"] in
  add_effect Scenario.insertion_order "eff" ["block 1"; "block 2"] "func1" (VInt 94) a
  = (Ok tt,
     mkAction "put down" ["block 1"; "block 2"] []
              [mkEffect (mkPredicate "eff" ["block 1"; "block 2"]) "func1" (VInt 100)]).
Proof.
  intros a.
  apply (add_effect_stores_100 Scenario.insertion_order a "eff" ["block 1"; "block 2"] "func1" (VInt 94)).
  repeat constructor; simpl; tauto.
Defined.

(** C5.  With every object among the action's parameters the call appends
    exactly one precondition (one effect) and raises nothing; with any
    object outside them it raises at once and the action is as before. *)
Theorem attach_checks_objects (rt : Runtime) (a : Action) (name : string)
    (objects : list string) (func : string) (p : PyVal) :
  (known a objects ->
     add_precond name objects a
     = (Ok tt,
        mkAction (act_name a) (obj_params a)
                 (precond a ++ [mkPredicate name objects]) (effects a))
     /\ exists e,
         add_effect rt name objects func p a
         = (Ok tt,
            mkAction (act_name a) (obj_params a) (precond a) (effects a ++ [e])))
  /\
  (~ known a objects ->
     add_precond name objects a = (Raise object_error, a)
     /\ add_effect rt name objects func p a = (Raise object_error, a)).
Proof.
  split; intros H.
  - split.
    + unfold add_precond. now rewrite (check_objects_known _ _ H).
    + eexists. unfold add_effect. rewrite (check_objects_known _ _ H).
      rewrite Effect_init_int. reflexivity.
  - unfold add_precond, add_effect.
    rewrite (check_objects_unknown _ _ H). split; reflexivity.
Qed.

Lemma attach_checks_objects_witness :
  let a := Action_init "put down" ["block 1"; "block 2"] in
  (add_precond "precond" ["block 1"; "block 2"] a
   = (Ok tt,
      mkAction "put down" ["block 1"; "block 2"]
               [mkPredicate "precond" ["block 1"; "block 2"]] []))
  /\ add_effect Scenario.insertion_order "eff" ["block 1"; "block 3"] "func1" (VInt 94) a
     = (Raise object_error, a).
Proof.
  intros a.
  split.
  - apply (attach_checks_objects Scenario.insertion_order a "precond" ["block 1"; "block 2"] "func1" (VInt 94)).
    repeat constructor; simpl; tauto.
  - apply (attach_checks_objects Scenario.insertion_order a "eff" ["block 1"; "block 3"] "func1" (VInt 94)).
    intros H. inversion H as [| ? ? _ H2]; subst. inversion H2 as [| ? ? H3 _]; subst.
    simpl in H3. destruct H3 as [E | [E | []]]; discriminate E.
Defined.


(** ** Further properties of [Effect.set_prob] *)

(** X1.  Whatever [set_prob] returns is a fixed point of [set_prob], and
    compares neither below 0 nor above 100. *)
Theorem set_prob_idempotent (rt : Runtime) (p v : PyVal) :
  set_prob rt p = Ok v ->
  set_prob rt v = Ok v /\ lt_int v 0 = Ok false /\ gt_int v 100 = Ok false.
Proof.
  destruct p as [z | b | f | s |].
  - rewrite set_prob_int. intros [= <-]. rewrite set_prob_int.
    assert (H : 0 <= Z.max 0 (Z.min 100 z) <= 100) by lia.
    split; [do 2 f_equal; lia |].
    unfold lt_int, gt_int. split; f_equal; apply Z.ltb_ge; lia.
  - destruct b; intros [= <-]; repeat split; reflexivity.
  - unfold set_prob. simpl int_check.
    destruct (PrimFloat.is_nan f) eqn:En; [discriminate |].
    destruct (is_inf f) eqn:Ei; [discriminate |].
    simpl.
    destruct (PrimFloat.ltb f (float_of_Z 0)) eqn:E0; simpl.
    + intros [= <-]. repeat split; reflexivity.
    + destruct (PrimFloat.ltb (float_of_Z 100) f) eqn:E1; simpl.
      * intros [= <-]. repeat split; reflexivity.
      * intros [= <-]. simpl. rewrite En, Ei. simpl. rewrite E0. simpl.
        rewrite E1. repeat split; reflexivity.
  - destruct (set_prob_str rt s) as (e & E). rewrite E. discriminate.
  - discriminate.
Qed.

Lemma set_prob_idempotent_witness :
  set_prob Scenario.insertion_order (VInt 100) = Ok (VInt 100)
  /\ lt_int (VInt 100) 0 = Ok false /\ gt_int (VInt 100) 100 = Ok false.
Proof. apply (set_prob_idempotent Scenario.insertion_order (VInt 150) (VInt 100)). reflexivity. Defined.

(** X2.  A string is never accepted as a probability, whatever it holds:
    one that [int] cannot read raises the [ValueError] of the guard, one
    that [int] can read passes the guard and raises [TypeError] at the
    comparison with 0; [None] raises [TypeError].  So for text the only
    outcomes are these two exceptions. *)
Theorem set_prob_rejects_text (rt : Runtime) (s : string) :
  let guard := ValueError "Must enter an integer value for probability." in
  set_prob rt (VStr s) = Raise (if int_accepts rt s then TypeError else guard)
  /\ (set_prob rt (VStr s) = Raise TypeError \/ set_prob rt (VStr s) = Raise guard)
  /\ (forall v, set_prob rt (VStr s) <> Ok v)
  /\ set_prob rt VNone = Raise TypeError.
Proof.
  intros guard.
  assert (E : set_prob rt (VStr s)
              = Raise (if int_accepts rt s then TypeError else guard)).
  { unfold set_prob. simpl. destruct (int_accepts rt s); reflexivity. }
  split; [exact E |]. split; [| split; [| reflexivity]].
  - rewrite E. destruct (int_accepts rt s); [now left | now right].
  - intros v. rewrite E. discriminate.
Qed.

(** X16.  An integer probability is stored clamped to the interval from
    0 to 100, by [set_prob] and by the constructor alike; nothing is
    raised. *)
Theorem set_prob_clamps_int (rt : Runtime) (name : string) (objects : list string)
    (func : string) (z : Z) :
  set_prob rt (VInt z) = Ok (VInt (Z.max 0 (Z.min 100 z)))
  /\ Effect_init rt name objects func (VInt z)
     = Ok (mkEffect (mkPredicate name objects) func (VInt (Z.max 0 (Z.min 100 z)))).
Proof. split; [apply set_prob_int | apply Effect_init_int]. Qed.

(** ** Actions reached by sequences of calls *)





End CoreFacts.

Module ArmsFacts.
Import Arms Scenario.

(** ** Equality of learned actions *)

Lemma learned_eqb_refl (a : LearnedAction) : learned_eqb a a = true.
Proof. unfold learned_eqb. now rewrite String.eqb_refl, set_eqb_refl. Qed.

Lemma learned_eqb_sym (a b : LearnedAction) : learned_eqb a b = learned_eqb b a.
Proof. unfold learned_eqb. now rewrite String.eqb_sym, set_eqb_sym. Qed.

Lemma learned_eqb_trans (a b c : LearnedAction) :
  learned_eqb a b = true -> learned_eqb b c = true -> learned_eqb a c = true.
Proof.
  unfold learned_eqb. rewrite !andb_true_iff, !String.eqb_eq.
  intros [N1 S1] [N2 S2]. split; [congruence | eauto using set_eqb_trans].
Qed.

Lemma learned_eqb_params (a b : LearnedAction) :
  learned_eqb a b = true -> forall x, In x (la_params a) <-> In x (la_params b).
Proof.
  unfold learned_eqb. rewrite andb_true_iff. intros [_ H]. now apply set_eqb_spec.
Qed.

(** ** [_step1] *)

Lemma shared_eqb (a1 a2 b1 b2 : LearnedAction) (S : list string) :
  learned_eqb a1 b1 = true -> learned_eqb a2 b2 = true ->
  shared a1 a2 S -> shared b1 b2 S.
Proof.
  intros E1 E2 [Hne H]. split; [assumption |].
  intros x. rewrite H, (learned_eqb_params _ _ E1), (learned_eqb_params _ _ E2). tauto.
Qed.

Lemma shared_swap (a1 a2 : LearnedAction) (S S' : list string) :
  shared a1 a2 S -> shared a2 a1 S' -> set_eqb S' S = true.
Proof.
  intros [_ H] [_ H']. apply set_eqb_spec. intros x. rewrite H, H'. tauto.
Qed.

Section Step1.
Variable rt : Runtime.
Hypothesis Hrt : lawful rt.

Lemma connect_from_shared (a1 : LearnedAction) (rest : list LearnedAction) :
  forall k2 S, In (k2, S) (connect_from rt a1 rest) -> shared a1 k2 S.
Proof.
  unfold connect_from.
  apply (fold_left_inv
           (fun inner => forall k2 S, In (k2, S) inner -> shared a1 k2 S)).
  - intros inner a2 _ IH k2 S.
    destruct (nonempty (intersection rt (la_params a1) (la_params a2))) eqn:E;
      [| apply IH].
    intros Hin. apply dict_set_In in Hin.
    destruct Hin as [Hin | [-> Hk]]; [now apply IH |].
    apply (shared_eqb a1 a2).
    + apply learned_eqb_refl.
    + destruct Hk as [-> | Hk]; [apply learned_eqb_refl |].
      now rewrite learned_eqb_sym.
    + split; [now apply nonempty_spec |].
      intros x. now apply intersection_In.
  - intros k2 S [].
Qed.

Lemma step1_entries (obs_lists : ObservationLists) :
  forall k inner, In (k, inner) (_step1 rt obs_lists) ->
  forall k2 S, In (k2, S) inner -> shared k k2 S.
Proof.
  unfold _step1.
  apply (fold_left_inv
           (fun c : Connected => forall k inner, In (k, inner) c ->
              forall k2 S, In (k2, S) inner -> shared k k2 S)).
  - intros c [i a1] _ IH k inner Hin k2 S HS.
    apply dict_set_In in Hin.
    destruct Hin as [Hin | [-> Hk]]; [now apply (IH k inner) |].
    apply connect_from_shared in HS.
    apply (shared_eqb a1 k2); [| apply learned_eqb_refl | assumption].
    destruct Hk as [-> | Hk]; [apply learned_eqb_refl |].
    now rewrite learned_eqb_sym.
  - intros k inner [].
Qed.

Lemma connection_shared (obs_lists : ObservationLists) (a1 a2 : LearnedAction)
    (S : list string) :
  connection (_step1 rt obs_lists) a1 a2 = Some S -> shared a1 a2 S.
Proof.
  unfold connection.
  destruct (dict_get learned_eqb (_step1 rt obs_lists) a1) as [inner |] eqn:E1;
    [| discriminate].
  intros E2.
  apply dict_get_In in E1. destruct E1 as (k & Hk & Ek).
  apply dict_get_In in E2. destruct E2 as (k2 & Hk2 & Ek2).
  apply (shared_eqb k k2); try assumption.
  now apply (step1_entries obs_lists k inner).
Qed.

End Step1.

(** *** Every pair is recorded, in one direction at least *)

Lemma common_eqb (a a' b b' : LearnedAction) :
  learned_eqb a a' = true -> learned_eqb b b' = true -> common a b -> common a' b'.
Proof.
  intros Ea Eb (x & Hxa & Hxb). exists x.
  now rewrite <- (learned_eqb_params _ _ Ea), <- (learned_eqb_params _ _ Eb).
Qed.

Lemma connection_eqb (c : Connected) (a a' b b' : LearnedAction) :
  learned_eqb a a' = true -> learned_eqb b b' = true ->
  connection c a b = connection c a' b'.
Proof.
  intros Ea Eb. unfold connection.
  rewrite (dict_get_same learned_eqb learned_eqb_sym learned_eqb_trans c a a' Ea).
  destruct (dict_get learned_eqb c a') as [inner |]; [| reflexivity].
  apply (dict_get_same learned_eqb learned_eqb_sym learned_eqb_trans); exact Eb.
Qed.

Lemma dict_set_keeps (d : dict LearnedAction (list string)) (k q : LearnedAction)
    (v : list string) :
  dict_get learned_eqb d q <> None ->
  dict_get learned_eqb (dict_set learned_eqb d k v) q <> None.
Proof.
  intros H. destruct (learned_eqb k q) eqn:E.
  - rewrite learned_eqb_sym in E.
    rewrite (dict_get_same learned_eqb learned_eqb_sym learned_eqb_trans _ q k E).
    rewrite (dict_get_set_same learned_eqb learned_eqb_refl). discriminate.
  - now rewrite (dict_get_set_other learned_eqb learned_eqb_sym learned_eqb_trans).
Qed.

Lemma skipn_length_app {A : Type} (pre suf : list A) :
  skipn (List.length pre) (pre ++ suf) = suf.
Proof. induction pre as [| x pre IH]; simpl; [reflexivity | exact IH]. Qed.

Lemma step1_loop_suffix (rt : Runtime) (suf : list LearnedAction) :
  forall (pre : list LearnedAction) (c : Connected),
    fold_left (fun connected_actions ia =>
                 let '(i, a1) := ia in
                 dict_set learned_eqb connected_actions a1
                          (connect_from rt a1 (skipn i (pre ++ suf))))
              (combine (seq (List.length pre) (List.length suf)) suf) c
    = connect_all rt c suf.
Proof.
  induction suf as [| a1 rest IH]; intros pre c; [reflexivity |].
  cbn [List.length seq combine fold_left connect_all].
  rewrite skipn_length_app.
  specialize (IH (pre ++ [a1])%list). rewrite <- app_assoc in IH. simpl app in IH.
  rewrite length_app in IH. simpl List.length in IH.
  rewrite Nat.add_1_r in IH. apply IH.
Qed.

Lemma step1_connect_all (rt : Runtime) (obs_lists : ObservationLists) :
  _step1 rt obs_lists = connect_all rt [] (learned_actions rt obs_lists).
Proof.
  unfold _step1, enumerate.
  apply (step1_loop_suffix rt (learned_actions rt obs_lists) []).
Qed.

Section Cover.
Variable rt : Runtime.
Hypothesis Hrt : lawful rt.

Lemma connect_from_covers (a b : LearnedAction) (rest : list LearnedAction) :
  In b rest -> common a b ->
  dict_get learned_eqb (connect_from rt a rest) b <> None.
Proof.
  intros Hb Hc. unfold connect_from. revert Hb. generalize (@nil (LearnedAction * list string)).
  induction rest as [| a2 rest IH]; intros inner Hb; [destruct Hb |].
  cbn [fold_left].
  assert (Keep : forall inner0 : dict LearnedAction (list string),
             dict_get learned_eqb inner0 b <> None ->
             dict_get learned_eqb
               (fold_left (fun inner1 a3 =>
                  let intersection := intersection rt (la_params a) (la_params a3) in
                  if nonempty intersection
                  then dict_set learned_eqb inner1 a3 intersection else inner1)
                  rest inner0) b <> None).
  { clear. induction rest as [| a3 rest IH']; intros inner0 H; [exact H |].
    cbn [fold_left]. apply IH'.
    destruct (nonempty (intersection rt (la_params a) (la_params a3)));
      [now apply dict_set_keeps | exact H]. }
  destruct Hb as [-> | Hb]; [| now apply IH].
  apply Keep.
  assert (Hne : nonempty (intersection rt (la_params a) (la_params b)) = true).
  { apply nonempty_spec. destruct Hc as (x & Hxa & Hxb). intros E.
    assert (Hx : In x (intersection rt (la_params a) (la_params b)))
      by now apply intersection_In.
    rewrite E in Hx. destruct Hx. }
  cbv zeta. rewrite Hne.
  rewrite (dict_get_set_same learned_eqb learned_eqb_refl). discriminate.
Qed.

Lemma connect_all_other (a : LearnedAction) (suf : list LearnedAction) :
  forall c, (forall y, In y suf -> learned_eqb y a = false) ->
            dict_get learned_eqb (connect_all rt c suf) a = dict_get learned_eqb c a.
Proof.
  induction suf as [| y suf IH]; intros c H; [reflexivity |].
  cbn [connect_all]. rewrite IH by (intros z Hz; apply H; now right).
  apply (dict_get_set_other learned_eqb learned_eqb_sym learned_eqb_trans).
  apply H. now left.
Qed.

Lemma represented (a : LearnedAction) (suf : list LearnedAction) :
  (exists a', In a' suf /\ learned_eqb a' a = true)
  \/ (forall y, In y suf -> learned_eqb y a = false).
Proof.
  destruct (existsb (fun y => learned_eqb y a) suf) eqn:E.
  - left. apply existsb_exists in E. exact E.
  - right. intros y Hy. destruct (learned_eqb y a) eqn:Ey; [| reflexivity].
    rewrite <- E. symmetry. apply existsb_exists. eauto.
Qed.

Lemma connect_all_first (x a b : LearnedAction) (tl : list LearnedAction) (c : Connected) :
  In a (x :: tl) -> In b (x :: tl) -> common a b ->
  (forall y, In y tl -> learned_eqb y a = false) ->
  connection (connect_all rt c (x :: tl)) a b <> None.
Proof.
  intros Ha Hb Hc Hno.
  assert (a = x) as ->.
  { destruct Ha as [E | Ha]; [now symmetry |].
    specialize (Hno a Ha). now rewrite learned_eqb_refl in Hno. }
  unfold connection. cbn [connect_all].
  rewrite (connect_all_other x tl _ Hno).
  rewrite (dict_get_set_same learned_eqb learned_eqb_refl).
  now apply connect_from_covers.
Qed.

Lemma connect_all_covers (suf : list LearnedAction) :
  forall c a b, In a suf -> In b suf -> common a b ->
    connection (connect_all rt c suf) a b <> None
    \/ connection (connect_all rt c suf) b a <> None.
Proof.
  induction suf as [| x tl IH]; intros c a b Ha Hb Hc; [destruct Ha |].
  destruct (represented a tl) as [(a' & Ha' & Ea) | Hna].
  - destruct (represented b tl) as [(b' & Hb' & Eb) | Hnb].
    + cbn [connect_all].
      rewrite <- (connection_eqb _ a' a b' b Ea Eb), <- (connection_eqb _ b' b a' a Eb Ea).
      apply IH; try assumption.
      apply (common_eqb a a' b b'); try assumption;
        rewrite learned_eqb_sym; assumption.
    + right. apply connect_all_first; try assumption.
      destruct Hc as (z & Hza & Hzb). exists z. auto.
  - left. now apply connect_all_first.
Qed.

End Cover.

(** C2 (as amended).  Every connection [_step1] records maps to the
    non-empty set of types the two actions share, and when the reverse
    connection is recorded too it maps to an equal set; any two learned
    actions of the corpus with a type in common are connected in one
    direction at least. *)
Theorem step1_connection_agrees (rt : Runtime) (Hrt : lawful rt)
    (obs_lists : ObservationLists) :
  (forall a1 a2 S,
     connection (_step1 rt obs_lists) a1 a2 = Some S ->
     (S <> [] /\ forall x, In x S <-> In x (la_params a1) /\ In x (la_params a2))
     /\ forall S', connection (_step1 rt obs_lists) a2 a1 = Some S' ->
                   set_eqb S' S = true)
  /\ (forall a1 a2,
        In a1 (learned_actions rt obs_lists) -> In a2 (learned_actions rt obs_lists) ->
        (exists x, In x (la_params a1) /\ In x (la_params a2)) ->
        connection (_step1 rt obs_lists) a1 a2 <> None
        \/ connection (_step1 rt obs_lists) a2 a1 <> None).
Proof.
  split.
  - intros a1 a2 S H. pose proof (connection_shared rt Hrt _ _ _ _ H) as HS.
    split; [exact HS |].
    intros S' H'. apply (shared_swap a1 a2); [assumption |].
    now apply (connection_shared rt Hrt obs_lists).
  - intros a1 a2 H1 H2 Hc. rewrite step1_connect_all.
    now apply connect_all_covers.
Qed.

Lemma insertion_order_lawful : lawful insertion_order.
Proof. intros A l. apply Permutation_refl. Qed.

Lemma step1_connection_agrees_witness :
  (forall x, In x ["object"] <->
             In x (la_params learned_pick_up) /\ In x (la_params learned_put_down))
  /\ (connection (_step1 insertion_order corpus) learned_pick_up learned_put_down <> None
      \/ connection (_step1 insertion_order corpus) learned_put_down learned_pick_up <> None).
Proof.
  destruct (step1_connection_agrees insertion_order insertion_order_lawful corpus)
    as [Hsound Hcover].
  split.
  - apply (Hsound learned_pick_up learned_put_down ["object"]). vm_compute. reflexivity.
  - apply Hcover.
    + vm_compute. tauto.
    + vm_compute. tauto.
    + exists "object". split; now left.
Defined.

(** C2 (as stated) fails: [pick-up] is connected to [put-down] with the
    set [{object}], and [put-down] is not connected to [pick-up] at all.
    The inner loop runs over [actions[i:]], so a pair is recorded under the
    action that comes first. *)
Lemma step1_not_symmetric :
  connection (_step1 insertion_order corpus) learned_pick_up learned_put_down
    = Some ["object"]
  /\ connection (_step1 insertion_order corpus) learned_put_down learned_pick_up = None.
Proof. split; vm_compute; reflexivity. Qed.

(** ** [Relation] *)

Lemma set_add_In {A : Type} (same : A -> A -> bool) (s : list A) (x y : A) :
  In y (set_add same s x) -> In y s \/ y = x.
Proof.
  unfold set_add. destruct (existsb (fun z => same z x) s); [auto |].
  rewrite in_app_iff. simpl. intuition.
Qed.

Lemma set_add_keeps {A : Type} (same : A -> A -> bool) (s : list A) (x y : A) :
  In y s -> In y (set_add same s x).
Proof.
  unfold set_add. destruct (existsb (fun z => same z x) s); [auto |].
  rewrite in_app_iff. auto.
Qed.

Lemma distinct_strings_In (l : list string) (x : string) :
  forall acc, In x (fold_left (set_add String.eqb) l acc) <-> In x acc \/ In x l.
Proof.
  induction l as [| y l IH]; simpl; intros acc; [tauto |].
  rewrite IH. split.
  - intros [H | H]; [| auto]. apply set_add_In in H. destruct H; subst; auto.
  - intros [H | [-> | H]]; [left; now apply set_add_keeps | | auto].
    left. unfold set_add.
    destruct (existsb (fun z => (z =? x)%string) acc) eqn:E.
    + apply existsb_exists in E. destruct E as (z & Hz & Ez).
      apply String.eqb_eq in Ez. now subst.
    + rewrite in_app_iff. simpl. auto.
Qed.

Lemma py_set_In (rt : Runtime) (Hrt : lawful rt) (l : list string) (x : string) :
  In x (py_set rt String.eqb l) <-> In x l.
Proof.
  unfold py_set. rewrite (set_iter_In rt Hrt), distinct_strings_In. simpl. tauto.
Qed.

(** The equality half of C6: relations of fluents with one name and one
    multiset of object types are [==]. *)
Lemma relation_of_eqb (rt : Runtime) (Hrt : lawful rt) (f1 f2 : Fluent) :
  fl_name f1 = fl_name f2 ->
  Permutation (map obj_type (fl_objects f1)) (map obj_type (fl_objects f2)) ->
  Relation_eqb (relation_of rt f1) (relation_of rt f2) = true.
Proof.
  intros Hn Hp. unfold Relation_eqb, relation_of. simpl.
  rewrite Hn, String.eqb_refl. simpl.
  apply set_eqb_spec. intros x. rewrite !(py_set_In rt Hrt).
  split; apply Permutation_in; [assumption | now symmetry].
Qed.

(** The hash half of C6 holds on such an interpreter, and only there is it
    guaranteed. *)
Lemma relation_of_hash_canonical (rt : Runtime) (Hc : canonical rt) (f1 f2 : Fluent) :
  fl_name f1 = fl_name f2 ->
  Permutation (map obj_type (fl_objects f1)) (map obj_type (fl_objects f2)) ->
  Relation_hash rt (relation_of rt f1) = Relation_hash rt (relation_of rt f2).
Proof.
  intros Hn Hp. unfold Relation_hash, var, relation_of. simpl.
  now rewrite Hn, (Hc _ _ Hp).
Qed.

(** C6 (the code at the failing input).  [at(stone, location)] and
    [at(location, stone)] have one name and one multiset of types; their
    relations are [==], yet [var] joins the types in iteration order, the
    two strings differ and so do the hashes. *)
Theorem relation_hash_follows_iteration_order :
  let r1 := relation_of insertion_order at_stone_location in
  let r2 := relation_of insertion_order at_location_stone in
  fl_name at_stone_location = fl_name at_location_stone
  /\ Permutation (map obj_type (fl_objects at_stone_location))
                 (map obj_type (fl_objects at_location_stone))
  /\ Relation_eqb r1 r2 = true
  /\ var r1 = "at stone location"
  /\ var r2 = "at location stone"
  /\ Relation_hash insertion_order r1 <> Relation_hash insertion_order r2.
Proof.
  repeat split; try reflexivity.
  - apply perm_swap.
  - vm_compute. discriminate.
Qed.

(** ** [_step2A] *)

Lemma step2A_relations (dt : Details) (action : LearnedAction) (relations : list Relation) :
  forall constraints,
    fold_left (fun constraints relation =>
      if issubset (types relation) (la_params action)
      then (((constraints ++ [A1_add dt action relation])
               ++ [A1_pre dt action relation])
               ++ [A2_del dt action relation])%list
      else constraints) relations constraints
    = (constraints ++ flat_map (pair_constraints dt action) relations)%list.
Proof.
  induction relations as [| r rs IH]; simpl; intros cs.
  - now rewrite app_nil_r.
  - rewrite IH. unfold pair_constraints at 2.
    destruct (issubset (types r) (la_params action)); simpl.
    + now rewrite <- !app_assoc.
    + reflexivity.
Qed.

Lemma step2A_actions (dt : Details) (relations : list Relation)
    (actions : list LearnedAction) :
  forall constraints,
    fold_left (fun constraints action =>
      fold_left (fun constraints relation =>
        if issubset (types relation) (la_params action)
        then (((constraints ++ [A1_add dt action relation])
                 ++ [A1_pre dt action relation])
                 ++ [A2_del dt action relation])%list
        else constraints) relations constraints) actions constraints
    = (constraints
         ++ flat_map (fun action => flat_map (pair_constraints dt action) relations)
                     actions)%list.
Proof.
  induction actions as [| a acts IH]; simpl; intros cs.
  - now rewrite app_nil_r.
  - rewrite IH, step2A_relations. now rewrite <- app_assoc.
Qed.

(** The constraints of one action, relation by relation, are those of the
    pairs that pass the subset test. *)
Lemma step2A_pairs_of_action (dt : Details) (a : LearnedAction)
    (relations : list Relation) :
  flat_map (pair_constraints dt a) relations
  = flat_map
      (fun p : LearnedAction * Relation =>
         [ Or [Var (var (snd p) ++ "_in_add_" ++ learned_details dt (fst p)) false;
               Var (var (snd p) ++ "_notin_pre_" ++ learned_details dt (fst p)) true];
           Or [Var (var (snd p) ++ "_in_pre_" ++ learned_details dt (fst p)) false;
               Var (var (snd p) ++ "_notin_add_" ++ learned_details dt (fst p)) true];
           Or [Var (var (snd p) ++ "_in_del_" ++ learned_details dt (fst p)) false;
               Var (var (snd p) ++ "_in_pre_" ++ learned_details dt (fst p)) true] ])
      (filter (fun p : LearnedAction * Relation =>
                 issubset (types (snd p)) (la_params (fst p)))
              (map (fun y : Relation => (a, y)) relations)).
Proof.
  induction relations as [| r rs IH]; [reflexivity |].
  cbn [flat_map map filter fst snd]. rewrite IH. unfold pair_constraints at 1.
  destruct (issubset (types r) (la_params a)); reflexivity.
Qed.

Lemma step2A_pairs (dt : Details) (relations : list Relation)
    (actions : list LearnedAction) :
  flat_map (fun action => flat_map (pair_constraints dt action) relations) actions
  = flat_map
      (fun p : LearnedAction * Relation =>
         [ Or [Var (var (snd p) ++ "_in_add_" ++ learned_details dt (fst p)) false;
               Var (var (snd p) ++ "_notin_pre_" ++ learned_details dt (fst p)) true];
           Or [Var (var (snd p) ++ "_in_pre_" ++ learned_details dt (fst p)) false;
               Var (var (snd p) ++ "_notin_add_" ++ learned_details dt (fst p)) true];
           Or [Var (var (snd p) ++ "_in_del_" ++ learned_details dt (fst p)) false;
               Var (var (snd p) ++ "_in_pre_" ++ learned_details dt (fst p)) true] ])
      (filter (fun p : LearnedAction * Relation =>
                 issubset (types (snd p)) (la_params (fst p)))
              (list_prod actions relations)).
Proof.
  induction actions as [| a acts IH]; [reflexivity |].
  cbn [flat_map list_prod]. rewrite filter_app, flat_map_app, IH, step2A_pairs_of_action.
  reflexivity.
Qed.

Lemma flat_map_three {A B : Type} (f : A -> list B) (l : list A) :
  (forall x, List.length (f x) = 3%nat) ->
  List.length (flat_map f l) = (3 * List.length l)%nat.
Proof.
  intros H. induction l as [| x l IH]; simpl; [reflexivity |].
  rewrite length_app, IH, H. lia.
Qed.

(** C7.  [_step2A] emits constraints for exactly the pairs of an action
    (a key of [connected_actions]) and a relation whose types are a subset
    of the action's parameter types: for each such pair the three clauses
    [not in_add or notin_pre], [not in_pre or notin_add] and
    [not in_del or in_pre] over the variables named from the relation and
    the action, which read as the implications add => not-pre,
    pre => not-add and del => pre; they come in this order, pair after
    pair, and nothing is emitted for any other pair.  The actions are
    iterated as a set and the relations are a set, so no pair occurs
    twice: each triple is generated once per pair. *)
Theorem step2A_exactly_relevant_pairs (rt : Runtime) (dt : Details)
    (connected_actions : Connected) (relations : list Relation) :
  let actions := py_set rt learned_eqb (keys connected_actions) in
  let relevant := fun p : LearnedAction * Relation =>
                    issubset (types (snd p)) (la_params (fst p)) in
  let pairs := filter relevant (list_prod actions relations) in
  let v := fun (p : LearnedAction * Relation) (role : string) =>
             (var (snd p) ++ role ++ learned_details dt (fst p))%string in
  let implies := fun a b : string => Or [Var a false; Var b true] in
  let three := fun p : LearnedAction * Relation =>
                 [ implies (v p "_in_add_") (v p "_notin_pre_");
                   implies (v p "_in_pre_") (v p "_notin_add_");
                   implies (v p "_in_del_") (v p "_in_pre_") ] in
  _step2A rt dt connected_actions relations = flat_map three pairs
  /\ (forall action relation,
        In (action, relation) pairs
        <-> In action actions /\ In relation relations
            /\ issubset (types relation) (la_params action) = true)
  /\ (forall c, In c (_step2A rt dt connected_actions relations)
                <-> exists p, In p pairs /\ In c (three p))
  /\ (forall rho a b, eval rho (implies a b) = implb (rho a) (rho b))
  /\ List.length (_step2A rt dt connected_actions relations)
     = (3 * List.length pairs)%nat
  /\ (lawful rt -> NoDup relations ->
        NoDup pairs
        /\ forall a b, In a actions -> In b actions -> learned_eqb a b = true -> a = b).
Proof.
  intros actions relevant pairs v implies three.
  assert (E : _step2A rt dt connected_actions relations = flat_map three pairs).
  { unfold _step2A. fold actions. rewrite step2A_actions. cbn [app].
    apply step2A_pairs. }
  split; [exact E |]. split; [| split; [| split; [| split]]].
  - intros action relation. unfold pairs.
    rewrite filter_In, in_prod_iff. unfold relevant. cbn [fst snd]. tauto.
  - intros c. rewrite E. apply in_flat_map.
  - intros rho a b. unfold implies. cbn [eval existsb].
    destruct (rho a), (rho b); reflexivity.
  - rewrite E. apply flat_map_three. reflexivity.
  - intros Hrt Hrel.
    destruct (py_set_distinct learned_eqb learned_eqb_refl learned_eqb_sym rt Hrt
                (keys connected_actions)) as [Hn Hd].
    split; [| exact Hd].
    apply NoDup_filter. apply list_prod_NoDup; assumption.
Qed.

Lemma step2A_exactly_relevant_pairs_witness :
  let relations := [mkRelation "holding" ["object"]; mkRelation "at" ["stone"; "location"]] in
  let implies := fun a b : string => Or [Var a false; Var b true] in
  _step2A insertion_order spec_details (_step1 insertion_order corpus) relations
  = [ implies "holding object_in_add_pick-up object" "holding object_notin_pre_pick-up object";
      implies "holding object_in_pre_pick-up object" "holding object_notin_add_pick-up object";
      implies "holding object_in_del_pick-up object" "holding object_in_pre_pick-up object";
      implies "holding object_in_add_put-down object" "holding object_notin_pre_put-down object";
      implies "holding object_in_pre_put-down object" "holding object_notin_add_put-down object";
      implies "holding object_in_del_put-down object" "holding object_in_pre_put-down object" ]
  /\ NoDup (filter (fun p : LearnedAction * Relation =>
                      issubset (types (snd p)) (la_params (fst p)))
                   (list_prod (py_set insertion_order learned_eqb
                                      (keys (_step1 insertion_order corpus)))
                              relations)).
Proof.
  intros relations implies.
  destruct (step2A_exactly_relevant_pairs insertion_order spec_details
              (_step1 insertion_order corpus) relations)
    as (E & _ & _ & _ & _ & H).
  split.
  - rewrite E. reflexivity.
  - apply H; [exact insertion_order_lawful |].
    repeat constructor; simpl; intuition discriminate.
Defined.

(** ** [_step2I] *)

Lemma index_before (obs_list : list Observation) (i : nat) (obs : Observation) :
  nth_error obs_list i = Some obs ->
  exists prev, before obs_list i = Some prev
               /\ index obs_list (Z.of_nat i - 1) = Ok prev.
Proof.
  intros H.
  assert (Hlen : (i < List.length obs_list)%nat)
    by (apply nth_error_Some; congruence).
  unfold index, before. destruct i as [| j].
  - destruct (nth_error obs_list (List.length obs_list - 1)) as [prev |] eqn:E.
    + exists prev. split; [reflexivity |].
      change (Z.of_nat 0 - 1 <? 0) with true. cbv iota.
      replace (Z.to_nat (Z.of_nat 0 - 1 + Z.of_nat (List.length obs_list)))
        with (List.length obs_list - 1)%nat by lia.
      rewrite E.
      destruct (Z.ltb_spec (Z.of_nat 0 - 1 + Z.of_nat (List.length obs_list)) 0); [lia |].
      destruct (Z.leb_spec (Z.of_nat (List.length obs_list))
                  (Z.of_nat 0 - 1 + Z.of_nat (List.length obs_list))); [lia |].
      reflexivity.
    + apply nth_error_None in E. lia.
  - destruct (nth_error obs_list j) as [prev |] eqn:E.
    + exists prev. split; [reflexivity |].
      destruct (Z.ltb_spec (Z.of_nat (S j) - 1) 0); [lia |].
      destruct (Z.ltb_spec (Z.of_nat (S j) - 1) 0); [lia |].
      destruct (Z.leb_spec (Z.of_nat (List.length obs_list)) (Z.of_nat (S j) - 1));
        [lia |].
      simpl orb. cbv iota.
      replace (Z.to_nat (Z.of_nat (S j) - 1)) with j by lia.
      now rewrite E.
    + apply nth_error_None in E. lia.
Qed.

Lemma collect_in_add (dt : Details) (relations : dict Fluent Relation) (fluent : Fluent)
    (r : Relation) (l : list Observation) :
  dict_get fluent_eqb relations fluent = Some r ->
  collect (fun obs_i =>
             r <- dict_item fluent_eqb relations fluent ;;
             Ok (Var (var r ++ "_in_add_" ++ action_details dt (obs_action obs_i)) true)) l
  = Ok (map (in_add dt r) l).
Proof.
  intros H. induction l as [| o l IH]; [reflexivity |].
  cbn [collect map]. rewrite IH. unfold dict_item. rewrite H. reflexivity.
Qed.

Lemma truthy_true (val : option bool) : truthy val = true -> val = Some true.
Proof. destruct val as [[|] |]; simpl; congruence. Qed.

Section Step2I.
Variables (rt : Runtime) (dt : Details) (relations : dict Fluent Relation).

Lemma step2I_item_ok (obs_list : list Observation) (i : nat) (obs : Observation)
    (item : Fluent * option bool) (cs : list NNF) (sc : Support) :
  nth_error obs_list i = Some obs ->
  (truthy (snd item) = true -> dict_get fluent_eqb relations (fst item) <> None) ->
  exists sc',
    step2I_item rt dt relations obs_list i obs (cs, sc) item
    = Ok ((cs ++ item_constraints dt relations obs_list i item)%list, sc').
Proof.
  intros Hi Hcov. destruct item as [fluent val].
  unfold step2I_item, item_constraints. simpl fst in *. simpl snd in *.
  destruct (truthy val) eqn:Ev.
  - destruct (dict_get fluent_eqb relations fluent) as [r |] eqn:Er;
      [| now destruct Hcov].
    destruct (index_before _ _ _ Hi) as (prev & Hb & Hidx).
    cbv zeta. rewrite (collect_in_add dt relations fluent r _ Er), Hb.
    unfold dict_item. rewrite Er, Hidx. simpl.
    destruct (Z.of_nat i <? Z.of_nat (List.length obs_list) - 1); simpl; eauto.
  - exists sc. now rewrite app_nil_r.
Qed.

Lemma step2I_items_ok (obs_list : list Observation) (i : nat) (obs : Observation)
    (items : list (Fluent * option bool)) :
  nth_error obs_list i = Some obs ->
  (forall fluent, In (fluent, Some true) items ->
     dict_get fluent_eqb relations fluent <> None) ->
  forall cs sc, exists sc',
    for_each items (step2I_item rt dt relations obs_list i obs) (cs, sc)
    = Ok ((cs ++ flat_map (item_constraints dt relations obs_list i) items)%list, sc').
Proof.
  intros Hi. induction items as [| item items IH]; cbn [for_each flat_map]; intros Hcov cs sc.
  - exists sc. now rewrite app_nil_r.
  - destruct (step2I_item_ok obs_list i obs item cs sc Hi) as (sc1 & E1).
    { intros Ht. destruct item as [fluent val]. cbn [fst snd] in *.
      apply truthy_true in Ht. subst val. apply Hcov. now left. }
    rewrite E1. cbn [bind].
    destruct (IH (fun fluent H => Hcov fluent (or_intror H))
                 (cs ++ item_constraints dt relations obs_list i item)%list sc1)
      as (sc2 & E2).
    exists sc2. rewrite E2. now rewrite <- app_assoc.
Qed.

Lemma step2I_steps_ok (obs_list : list Observation) (ios : list (nat * Observation)) :
  (forall i obs, In (i, obs) ios -> nth_error obs_list i = Some obs) ->
  (forall i obs items fluent, In (i, obs) ios -> obs_state obs = Some items ->
     In (fluent, Some true) items -> dict_get fluent_eqb relations fluent <> None) ->
  forall cs sc, exists sc',
    for_each ios (step2I_obs rt dt relations obs_list) (cs, sc)
    = Ok ((cs ++ flat_map (obs_constraints dt relations obs_list) ios)%list, sc').
Proof.
  induction ios as [| [i obs] ios IH]; cbn [for_each flat_map]; intros Hnth Hcov cs sc.
  - exists sc. now rewrite app_nil_r.
  - assert (E1 : exists sc1,
               step2I_obs rt dt relations obs_list (cs, sc) (i, obs)
               = Ok ((cs ++ obs_constraints dt relations obs_list (i, obs))%list, sc1)).
    { unfold step2I_obs, obs_constraints. cbn [fst snd].
      destruct (obs_state obs) as [items |] eqn:Es.
      - apply (step2I_items_ok obs_list i obs items); [apply Hnth; now left |].
        intros fluent Hf. apply (Hcov i obs items fluent); [now left | assumption ..].
      - exists sc. now rewrite app_nil_r. }
    destruct E1 as (sc1 & E1). rewrite E1. cbn [bind].
    destruct (IH (fun i' o' H => Hnth i' o' (or_intror H))
                 (fun i' o' it f H => Hcov i' o' it f (or_intror H))
                 (cs ++ obs_constraints dt relations obs_list (i, obs))%list sc1)
      as (sc2 & E2).
    exists sc2. rewrite E2. now rewrite <- app_assoc.
Qed.

End Step2I.

Lemma enumerate_from_In {A : Type} (l : list A) :
  forall (n i : nat) (x : A),
    In (i, x) (combine (seq n (List.length l)) l) <->
    (n <= i)%nat /\ nth_error l (i - n) = Some x.
Proof.
  induction l as [| y l IH]; simpl; intros n i x.
  - split; [tauto |]. intros [_ H]. destruct (i - n)%nat; discriminate.
  - rewrite IH. split.
    + intros [[= <- <-] | [Hle H]].
      * split; [lia |]. now rewrite Nat.sub_diag.
      * split; [lia |]. replace (i - n)%nat with (S (i - S n)) by lia. exact H.
    + intros [Hle H]. destruct (i - n)%nat as [| k] eqn:E.
      * left. simpl in H. injection H as ->. f_equal. lia.
      * right. split; [lia |]. simpl in H. now replace (i - S n)%nat with k by lia.
Qed.

Lemma enumerate_In {A : Type} (l : list A) (i : nat) (x : A) :
  In (i, x) (enumerate l) <-> nth_error l i = Some x.
Proof.
  unfold enumerate. rewrite enumerate_from_In, Nat.sub_0_r.
  split; [tauto | intros H; split; [lia | exact H]].
Qed.

(** The whole pass, when every fluent observed true has a relation: it
    returns, and its constraints are those of each trace, in order. *)
Lemma step2I_returns (rt : Runtime) (dt : Details) (obs_lists : ObservationLists)
    (relations : dict Fluent Relation) :
  covers relations obs_lists ->
  exists support_counts,
    _step2I rt dt obs_lists relations
    = Ok (flat_map (trace_constraints dt relations) (traces obs_lists), support_counts).
Proof.
  unfold _step2I, covers. intros Hcov.
  enough (G : forall (ts : list (list Observation)),
             (forall t, In t ts -> In t (traces obs_lists)) ->
             forall cs sc, exists sc',
               for_each ts
                 (fun st obs_list =>
                    for_each (enumerate obs_list)
                             (step2I_obs rt dt relations obs_list) st) (cs, sc)
               = Ok ((cs ++ flat_map (trace_constraints dt relations) ts)%list, sc')).
  { destruct (G (traces obs_lists) (fun t H => H) [] []) as (sc' & E).
    exists sc'. exact E. }
  induction ts as [| t ts IH]; cbn [for_each flat_map]; intros Hsub cs sc.
  - exists sc. now rewrite app_nil_r.
  - destruct (step2I_steps_ok rt dt relations t (enumerate t)) with (cs := cs) (sc := sc)
      as (sc1 & E1).
    + intros i obs. apply enumerate_In.
    + intros i obs items fluent Hin Hs Hf.
      apply (Hcov t obs items fluent); try assumption.
      * apply Hsub. now left.
      * apply enumerate_In in Hin. now apply nth_error_In in Hin.
    + rewrite E1. cbn [bind].
      destruct (IH (fun t' H => Hsub t' (or_intror H))
                   (cs ++ flat_map (obs_constraints dt relations t) (enumerate t))%list sc1)
        as (sc2 & E2).
      exists sc2. rewrite E2. unfold trace_constraints. now rewrite <- app_assoc.
Qed.

Lemma item_constraints_In (dt : Details) (relations : dict Fluent Relation)
    (obs_list : list Observation) (i : nat) (item : Fluent * option bool) (c : NNF) :
  In c (item_constraints dt relations obs_list i item) <->
  exists r prev,
    snd item = Some true /\ dict_get fluent_eqb relations (fst item) = Some r
    /\ before obs_list i = Some prev
    /\ c = And [Or (map (in_add dt r) (firstn i obs_list)); notin_del dt r prev].
Proof.
  unfold item_constraints. split.
  - destruct (truthy (snd item)) eqn:Et; [| intros []].
    apply truthy_true in Et.
    destruct (dict_get fluent_eqb relations (fst item)) as [r |]; [| intros []].
    destruct (before obs_list i) as [prev |]; [| intros []].
    intros [<- | []]. exists r, prev. auto.
  - intros (r & prev & Ev & Er & Eb & ->). rewrite Ev, Er, Eb. simpl. auto.
Qed.

Lemma step2I_constraints_In (dt : Details) (relations : dict Fluent Relation)
    (obs_lists : ObservationLists) (c : NNF) :
  In c (flat_map (trace_constraints dt relations) (traces obs_lists)) <->
  exists obs_list i fluent r prev,
    observes_true obs_lists obs_list i fluent
    /\ dict_get fluent_eqb relations fluent = Some r
    /\ before obs_list i = Some prev
    /\ c = And [Or (map (in_add dt r) (firstn i obs_list)); notin_del dt r prev].
Proof.
  rewrite in_flat_map. split.
  - intros (t & Ht & Hc). unfold trace_constraints in Hc.
    apply in_flat_map in Hc. destruct Hc as ([i obs] & Hio & Hc).
    apply enumerate_In in Hio. unfold obs_constraints in Hc. simpl in Hc.
    destruct (obs_state obs) as [items |] eqn:Es; [| destruct Hc].
    apply in_flat_map in Hc. destruct Hc as ([fluent val] & Hit & Hc).
    apply item_constraints_In in Hc. simpl in Hc.
    destruct Hc as (r & prev & -> & Er & Eb & ->).
    exists t, i, fluent, r, prev. repeat split; try assumption.
    exists obs, items. auto.
  - intros (t & i & fluent & r & prev & (Ht & obs & items & Hi & Es & Hf) & Er & Eb & ->).
    exists t. split; [assumption |].
    unfold trace_constraints. apply in_flat_map. exists (i, obs).
    split; [now apply enumerate_In |].
    unfold obs_constraints. simpl. rewrite Es.
    apply in_flat_map. exists (fluent, Some true). split; [assumption |].
    apply item_constraints_In. exists r, prev. auto.
Qed.

(** C3 (as amended).  When every fluent observed true has a relation,
    [_step2I] returns; for every step [i] observing a fluent true it emits
    the conjunction of an I1 disjunction, with one add-variable per step at
    positions [0..i-1], and an I2 variable; at [i = 0] the disjunction is
    empty and is emitted as it is, so that constraint is false under every
    assignment; at [i >= 1] the I2 variable names the action at position
    [i-1] of the same trace.  Nothing else is emitted. *)
Theorem step2I_information_constraints (rt : Runtime) (dt : Details)
    (obs_lists : ObservationLists) (relations : dict Fluent Relation) :
  covers relations obs_lists ->
  exists constraints support_counts,
    _step2I rt dt obs_lists relations = Ok (constraints, support_counts)
    /\ (forall obs_list i fluent r,
          observes_true obs_lists obs_list i fluent ->
          dict_get fluent_eqb relations fluent = Some r ->
          exists i2,
            In (And [Or (map (in_add dt r) (firstn i obs_list)); i2]) constraints
            /\ (i = 0%nat ->
                forall rho,
                  eval rho (And [Or (map (in_add dt r) (firstn i obs_list)); i2]) = false)
            /\ (forall j prev, i = S j -> nth_error obs_list j = Some prev ->
                i2 = notin_del dt r prev))
    /\ (forall c, In c constraints ->
          exists obs_list i fluent r i2,
            observes_true obs_lists obs_list i fluent
            /\ dict_get fluent_eqb relations fluent = Some r
            /\ c = And [Or (map (in_add dt r) (firstn i obs_list)); i2]
            /\ (forall j prev, i = S j -> nth_error obs_list j = Some prev ->
                i2 = notin_del dt r prev)).
Proof.
  intros Hcov. destruct (step2I_returns rt dt obs_lists relations Hcov) as (sc & E).
  exists (flat_map (trace_constraints dt relations) (traces obs_lists)), sc.
  split; [exact E | split].
  - intros t i fluent r Hobs Er.
    destruct Hobs as (Ht & obs & items & Hi & Es & Hf).
    destruct (index_before t i obs Hi) as (prev & Eb & _).
    exists (notin_del dt r prev). repeat split.
    + apply step2I_constraints_In. exists t, i, fluent, r, prev.
      repeat split; try assumption. exists obs, items. auto.
    + intros -> rho. reflexivity.
    + intros j prev' -> Hj. simpl in Eb. congruence.
  - intros c Hc. apply step2I_constraints_In in Hc.
    destruct Hc as (t & i & fluent & r & prev & Hobs & Er & Eb & ->).
    exists t, i, fluent, r, (notin_del dt r prev). repeat split; try assumption.
    + apply Hobs.
    + apply Hobs.
    + intros j prev' -> Hj. simpl in Eb. congruence.
Qed.

Lemma corpus_covered : covers (relations_of insertion_order corpus) corpus.
Proof.
  intros t obs items fluent Ht Ho Es Hf.
  simpl in Ht. destruct Ht as [<- | [<- | []]];
    simpl in Ho; destruct Ho as [<- | [<- | []]];
    simpl in Es; injection Es as <-;
    simpl in Hf; destruct Hf as [Hf | []]; try discriminate Hf;
    injection Hf as <-; vm_compute; discriminate.
Qed.

Lemma step2I_information_constraints_witness :
  exists constraints support_counts,
    _step2I insertion_order spec_details corpus (relations_of insertion_order corpus)
    = Ok (constraints, support_counts)
    /\ In (And [Or [Var "holding object_in_add_pick-up object a" true];
                Var "holding object_notin_del_pick-up object a" true]) constraints.
Proof.
  destruct (step2I_information_constraints insertion_order spec_details corpus
              (relations_of insertion_order corpus) corpus_covered)
    as (cs & sc & E & Hcomplete & _).
  exists cs, sc. split; [exact E |].
  destruct (Hcomplete (pick_then_hold (block "a")) 1%nat (holding (block "a"))
              (mkRelation "holding" ["object"])) as (i2 & Hin & _ & Hi2).
  - split; [now left |].
    exists (mkObs (put_down (block "a")) (Some [(holding (block "a"), Some true)])),
           [(holding (block "a"), Some true)].
    repeat split. now left.
  - vm_compute. reflexivity.
  - rewrite (Hi2 0%nat (mkObs (pick_up (block "a")) (Some [(holding (block "a"), Some false)]))
               eq_refl eq_refl) in Hin.
    exact Hin.
Defined.

(** C3 (as stated) fails.  For a trace of one step that observes
    [holding(a)] true, the empty I1 disjunction is not detected: the
    constraint emitted is [And [Or []; i2]], false under every assignment,
    and no requirement on the initial state appears.  For a two-step trace
    whose first step observes the fluent true, the I2 variable at position
    0 names [pick-up a], the action at position 1 of the trace. *)
Lemma step2I_passes_empty_disjunction :
  let relations := [(holding (block "a"), mkRelation "holding" ["object"])] in
  let c := And [Or []; Var "holding object_notin_del_pick-up object a" true] in
  (exists support_counts,
     _step2I insertion_order spec_details single_step relations
     = Ok ([c], support_counts))
  /\ (forall rho, eval rho c = false)
  /\ (exists support_counts,
        _step2I insertion_order spec_details holding_at_start relations
        = Ok ([c], support_counts))
  /\ map (fun obs => action_details spec_details (obs_action obs))
         (List.concat (traces holding_at_start))
     = ["put-down object a"; "pick-up object a"].
Proof.
  repeat split.
  - eexists. vm_compute. reflexivity.
  - eexists. vm_compute. reflexivity.
Qed.

(** ** [_step2], [_arms], [ARMS] *)

Lemma arms_no_actions (rt : Runtime) (dt : Details) (obs_lists : ObservationLists)
    (fluents : list Fluent) :
  _arms rt dt obs_lists fluents = Ok []
  \/ exists e, _arms rt dt obs_lists fluents = Raise e.
Proof.
  unfold _arms. destruct (_step2 rt dt obs_lists (_step1 rt obs_lists) fluents); simpl; eauto.
Qed.

(** C1 (the code at the failing input).  On the end-to-end corpus the
    extraction returns a model with the two [holding] fluents and no action
    at all: [_arms] ends in [return set()], so no [pick-up] schema exists
    whose add-list could contain [holding].  No corpus fares better: a
    model that [ARMS] returns has an empty action set. *)
Theorem arms_learns_no_action :
  ARMS insertion_order spec_details corpus
  = Ok (mkModel [holding (block "a"); holding (block "b")] [])
  /\ forall rt dt obs_lists m, ARMS rt dt obs_lists = Ok m -> actions m = [].
Proof.
  split; [vm_compute; reflexivity |].
  intros rt dt obs_lists m. unfold ARMS.
  destruct (ol_type obs_lists); try discriminate.
  destruct (arms_no_actions rt dt obs_lists (_get_fluents rt obs_lists)) as [E | [e E]];
    rewrite E; simpl; [| discriminate].
  now intros [= <-].
Qed.

(** C8 (the code at the failing input).  On the end-to-end corpus Step 2I
    counts two supports, and [_step2] returns the empty list: the
    normalisation by the maximum count is not executed and no weight is
    computed. *)
Theorem step2_computes_no_weight :
  let r := mkRelation "holding" ["object"] in
  (exists constraints,
     _step2I insertion_order spec_details corpus (relations_of insertion_order corpus)
     = Ok (constraints,
           [ ((r, pick_up (block "a"), "add"), 1);
             ((r, pick_up (block "b"), "add"), 1) ]))
  /\ _step2 insertion_order spec_details corpus (_step1 insertion_order corpus)
            (get_fluents insertion_order corpus) = Ok []
  /\ _arms insertion_order spec_details corpus (get_fluents insertion_order corpus) = Ok [].
Proof.
  split; [| split].
  - eexists. vm_compute. reflexivity.
  - vm_compute. reflexivity.
  - vm_compute. reflexivity.
Qed.

(** What the claim asks of the weights holds of the disabled block, read
    over the rationals: with counts of at least 1, every rate lies in
    (0, 1] and a key with the maximal count has rate 1. *)
Lemma max_count_bound (counts : list Z) (n : Z) :
  In n counts -> n <= fold_right Z.max 0 counts.
Proof.
  induction counts as [| m counts IH]; simpl; [tauto |].
  intros [-> | H]; [lia |]. specialize (IH H). lia.
Qed.

Lemma support_rate_block_bounds (support_counts : Support) :
  (forall key n, In (key, n) support_counts -> 1 <= n) ->
  forall key q, In (key, q) (support_rate_block support_counts) ->
    (0 < q /\ q <= 1)%Q
    /\ exists n, In (key, n) support_counts
                 /\ (n = fold_right Z.max 0 (values support_counts) -> (q == 1)%Q).
Proof.
  intros Hpos key q Hin. unfold support_rate_block in Hin.
  apply in_map_iff in Hin. destruct Hin as ([key' n] & [= <- <-] & Hin).
  simpl fst. simpl snd.
  pose proof (Hpos _ _ Hin) as Hn.
  assert (Hmax : n <= fold_right Z.max 0 (values support_counts)).
  { apply max_count_bound. unfold values. apply in_map_iff. now exists (key', n). }
  set (z := fold_right Z.max 0 (values support_counts)) in *.
  assert (Hz : (0 < inject_Z z)%Q) by (unfold Qlt; simpl; lia).
  split; [split |].
  - apply Qlt_shift_div_l; [exact Hz |]. unfold Qlt. simpl. lia.
  - apply Qle_shift_div_r; [exact Hz |]. rewrite Qmult_1_l. unfold Qle. simpl. lia.
  - exists n. split; [exact Hin |]. intros ->.
    apply Qmult_inv_r. intros E. rewrite E in Hz. discriminate Hz.
Qed.

(** ** Further properties of [Relation] *)

(** X5.  The relation derived from a fluent depends on the fluent's name
    and on the sequence of its objects' types only: fluents that differ in
    object names give the identical relation, with the same [var()] and
    the same hash; fluents whose type sequences are permutations of each
    other give relations that are [==]. *)
Theorem relation_of_collapses (rt : Runtime) (Hrt : lawful rt) (f1 f2 : Fluent) :
  fl_name f1 = fl_name f2 ->
  (map obj_type (fl_objects f1) = map obj_type (fl_objects f2) ->
     relation_of rt f1 = relation_of rt f2
     /\ var (relation_of rt f1) = var (relation_of rt f2)
     /\ Relation_hash rt (relation_of rt f1) = Relation_hash rt (relation_of rt f2))
  /\ (Permutation (map obj_type (fl_objects f1)) (map obj_type (fl_objects f2)) ->
        Relation_eqb (relation_of rt f1) (relation_of rt f2) = true).
Proof.
  intros Hn. split.
  - intros Ht. assert (E : relation_of rt f1 = relation_of rt f2).
    { unfold relation_of. now rewrite Hn, Ht. }
    rewrite E. auto.
  - intros Hp. now apply relation_of_eqb.
Qed.

Lemma relation_of_collapses_witness :
  relation_of insertion_order (holding (block "a"))
  = relation_of insertion_order (holding (block "b"))
  /\ Relation_eqb (relation_of insertion_order at_stone_location)
                  (relation_of insertion_order at_location_stone) = true.
Proof.
  split.
  - apply (relation_of_collapses insertion_order insertion_order_lawful
             (holding (block "a")) (holding (block "b")) eq_refl).
    reflexivity.
  - apply (relation_of_collapses insertion_order insertion_order_lawful
             at_stone_location at_location_stone eq_refl).
    apply perm_swap.
Defined.

(** ** Further properties of [_step1] *)

Lemma connect_all_keeps (rt : Runtime) (a : LearnedAction) (suf : list LearnedAction) :
  forall c, dict_get learned_eqb c a <> None ->
            dict_get learned_eqb (connect_all rt c suf) a <> None.
Proof.
  induction suf as [| x suf IH]; intros c H; [exact H |].
  cbn [connect_all]. apply IH.
  destruct (learned_eqb x a) eqn:E.
  - rewrite learned_eqb_sym in E.
    rewrite (dict_get_same learned_eqb learned_eqb_sym learned_eqb_trans _ a x E).
    rewrite (dict_get_set_same learned_eqb learned_eqb_refl). discriminate.
  - now rewrite (dict_get_set_other learned_eqb learned_eqb_sym learned_eqb_trans).
Qed.

Lemma connect_all_keys (rt : Runtime) (a : LearnedAction) (suf : list LearnedAction) :
  forall c,
    dict_get learned_eqb (connect_all rt c suf) a <> None <->
    dict_get learned_eqb c a <> None
    \/ exists a', In a' suf /\ learned_eqb a' a = true.
Proof.
  induction suf as [| x suf IH]; intros c; cbn [connect_all].
  - split; [auto | intros [H | (a' & [] & _)]; exact H].
  - rewrite IH. split.
    + intros [H | (a' & Ha' & E)].
      * destruct (learned_eqb x a) eqn:Ex.
        -- right. exists x. split; [now left | exact Ex].
        -- left.
           now rewrite (dict_get_set_other learned_eqb learned_eqb_sym learned_eqb_trans)
             in H.
      * right. exists a'. split; [now right | exact E].
    + intros [H | (a' & [<- | Ha'] & E)].
      * left. destruct (learned_eqb x a) eqn:Ex.
        -- rewrite learned_eqb_sym in Ex.
           rewrite (dict_get_same learned_eqb learned_eqb_sym learned_eqb_trans _ a x Ex).
           rewrite (dict_get_set_same learned_eqb learned_eqb_refl). discriminate.
        -- now rewrite (dict_get_set_other learned_eqb learned_eqb_sym learned_eqb_trans).
      * left. rewrite learned_eqb_sym in E.
        rewrite (dict_get_same learned_eqb learned_eqb_sym learned_eqb_trans _ a x E).
        rewrite (dict_get_set_same learned_eqb learned_eqb_refl). discriminate.
      * right. exists a'. auto.
Qed.

(** X6.  The keys of the mapping [_step1] returns are the learned actions
    of the corpus, each present even when it is connected to nothing, and
    no other. *)
Theorem step1_keys (rt : Runtime) (obs_lists : ObservationLists) (a : LearnedAction) :
  dict_get learned_eqb (_step1 rt obs_lists) a <> None <->
  exists a', In a' (learned_actions rt obs_lists) /\ learned_eqb a' a = true.
Proof.
  rewrite step1_connect_all, connect_all_keys. simpl.
  split; [intros [H | H]; [now destruct H | exact H] | auto].
Qed.

(** X7.  A learned action of the corpus is connected to itself exactly
    when it has a parameter type, and then with its own type set; an
    action without parameter types is connected to nothing and nothing is
    connected to it. *)
Theorem step1_self_connection (rt : Runtime) (Hrt : lawful rt)
    (obs_lists : ObservationLists) (a : LearnedAction) :
  In a (learned_actions rt obs_lists) ->
  (la_params a <> [] ->
     exists S, connection (_step1 rt obs_lists) a a = Some S
               /\ set_eqb S (la_params a) = true)
  /\ (la_params a = [] ->
        forall b, connection (_step1 rt obs_lists) a b = None
                  /\ connection (_step1 rt obs_lists) b a = None).
Proof.
  intros Ha. split.
  - intros Hne.
    assert (Hc : common a a).
    { destruct (la_params a) as [| x xs] eqn:E; [now destruct Hne |].
      exists x. rewrite E. split; now left. }
    pose proof (connect_all_covers rt Hrt _ [] a a Ha Ha Hc) as H.
    rewrite <- step1_connect_all in H.
    destruct (connection (_step1 rt obs_lists) a a) as [S |] eqn:E;
      [| destruct H as [H | H]; now destruct H].
    exists S. split; [reflexivity |].
    destruct (connection_shared rt Hrt _ _ _ _ E) as [_ HS].
    apply set_eqb_spec. intros x. rewrite HS. tauto.
  - intros Hemp b. split.
    + destruct (connection (_step1 rt obs_lists) a b) as [S |] eqn:E; [| reflexivity].
      destruct (connection_shared rt Hrt _ _ _ _ E) as [Hne HS].
      destruct S as [| x S]; [now destruct Hne |].
      destruct (proj1 (HS x) (or_introl eq_refl)) as [Hx _].
      rewrite Hemp in Hx. destruct Hx.
    + destruct (connection (_step1 rt obs_lists) b a) as [S |] eqn:E; [| reflexivity].
      destruct (connection_shared rt Hrt _ _ _ _ E) as [Hne HS].
      destruct S as [| x S]; [now destruct Hne |].
      destruct (proj1 (HS x) (or_introl eq_refl)) as [_ Hx].
      rewrite Hemp in Hx. destruct Hx.
Qed.

Lemma step1_self_connection_witness :
  exists S, connection (_step1 insertion_order corpus) learned_pick_up learned_pick_up
            = Some S
            /\ set_eqb S (la_params learned_pick_up) = true.
Proof.
  apply (step1_self_connection insertion_order insertion_order_lawful corpus
           learned_pick_up).
  - vm_compute. tauto.
  - discriminate.
Defined.

(** ** Further properties of [_step2A] *)

(** X8.  Every constraint [_step2A] emits is a clause of one negative and
    one positive literal, so the emitted set is satisfied by the assignment
    that makes every variable false and by the one that makes every
    variable true; with no relation nothing is emitted. *)
Theorem step2A_clauses (rt : Runtime) (dt : Details) (connected_actions : Connected)
    (relations : list Relation) :
  Forall (fun c => (exists a b, c = Or [Var a false; Var b true])
                   /\ eval (fun _ => false) c = true
                   /\ eval (fun _ => true) c = true)
         (_step2A rt dt connected_actions relations)
  /\ _step2A rt dt connected_actions [] = [].
Proof.
  split.
  - unfold _step2A. rewrite step2A_actions. simpl app.
    apply Forall_forall. intros c Hc.
    apply in_flat_map in Hc. destruct Hc as (a & _ & Hc).
    apply in_flat_map in Hc. destruct Hc as (r & _ & Hc).
    unfold pair_constraints in Hc.
    destruct (issubset (types r) (la_params a)); [| destruct Hc].
    destruct Hc as [<- | [<- | [<- | []]]];
      (split; [eexists; eexists; reflexivity | split; reflexivity]).
  - unfold _step2A. rewrite step2A_actions. simpl.
    induction (py_set rt learned_eqb (keys connected_actions)); simpl; auto.
Qed.

(** ** Further properties of [_step2I] *)

Lemma collect_in_add_missing (dt : Details) (relations : dict Fluent Relation)
    (fluent : Fluent) (l : list Observation) :
  dict_get fluent_eqb relations fluent = None ->
  collect (fun obs_i =>
             r <- dict_item fluent_eqb relations fluent ;;
             Ok (Var (var r ++ "_in_add_" ++ action_details dt (obs_action obs_i)) true)) l
  = match l with [] => Ok [] | _ :: _ => Raise KeyError end.
Proof.
  intros H. destruct l as [| o l]; [reflexivity |].
  cbn [collect]. unfold dict_item. rewrite H. reflexivity.
Qed.

Section Step2IErrors.
Variables (rt : Runtime) (dt : Details) (relations : dict Fluent Relation).

Lemma step2I_item_missing (obs_list : list Observation) (i : nat) (obs : Observation)
    (st : list NNF * Support) (fluent : Fluent) :
  dict_get fluent_eqb relations fluent = None ->
  step2I_item rt dt relations obs_list i obs st (fluent, Some true) = Raise KeyError.
Proof.
  intros H. destruct st as [cs sc]. unfold step2I_item. cbn [truthy]. cbv zeta.
  rewrite (collect_in_add_missing dt relations fluent _ H).
  destruct (firstn i obs_list); cbn [bind]; [| reflexivity].
  unfold dict_item. rewrite H. reflexivity.
Qed.

Lemma step2I_item_ok_or (obs_list : list Observation) (i : nat) (obs : Observation)
    (st : list NNF * Support) (item : Fluent * option bool) :
  nth_error obs_list i = Some obs ->
  step2I_item rt dt relations obs_list i obs st item = Raise KeyError
  \/ exists st', step2I_item rt dt relations obs_list i obs st item = Ok st'.
Proof.
  intros Hi. destruct item as [fluent val]. destruct st as [cs sc].
  destruct (truthy val) eqn:Ev.
  - destruct (dict_get fluent_eqb relations fluent) eqn:Er.
    + right. destruct (step2I_item_ok rt dt relations obs_list i obs (fluent, val) cs sc Hi)
        as (sc' & E); [simpl; congruence | eauto].
    + left. apply truthy_true in Ev. subst val. now apply step2I_item_missing.
  - right. destruct (step2I_item_ok rt dt relations obs_list i obs (fluent, val) cs sc Hi)
      as (sc' & E); [simpl; congruence | eauto].
Qed.

Lemma step2I_obs_ok_or (obs_list : list Observation) (st : list NNF * Support)
    (io : nat * Observation) :
  In io (enumerate obs_list) ->
  step2I_obs rt dt relations obs_list st io = Raise KeyError
  \/ exists st', step2I_obs rt dt relations obs_list st io = Ok st'.
Proof.
  destruct io as [i obs]. intros Hio. apply enumerate_In in Hio.
  unfold step2I_obs. destruct (obs_state obs) as [items |]; [| eauto].
  apply for_each_ok_or. intros st0 item _. now apply step2I_item_ok_or.
Qed.

Lemma step2I_trace_ok_or (obs_list : list Observation) (st : list NNF * Support) :
  for_each (enumerate obs_list) (step2I_obs rt dt relations obs_list) st = Raise KeyError
  \/ exists st',
       for_each (enumerate obs_list) (step2I_obs rt dt relations obs_list) st = Ok st'.
Proof.
  apply for_each_ok_or. intros st0 io Hio. now apply step2I_obs_ok_or.
Qed.

Lemma step2I_trace_missing (obs_list : list Observation) (obs : Observation)
    (items : list (Fluent * option bool)) (fluent : Fluent) :
  In obs obs_list -> obs_state obs = Some items -> In (fluent, Some true) items ->
  dict_get fluent_eqb relations fluent = None ->
  forall st,
    for_each (enumerate obs_list) (step2I_obs rt dt relations obs_list) st = Raise KeyError.
Proof.
  intros Ho Es Hf Hnone.
  apply In_nth_error in Ho. destruct Ho as (i & Hi).
  apply for_each_raises.
  - intros st0 io Hio. now apply step2I_obs_ok_or.
  - exists (i, obs). split; [now apply enumerate_In |].
    intros st. unfold step2I_obs. rewrite Es.
    apply for_each_raises.
    + intros st0 item _. now apply step2I_item_ok_or.
    + exists (fluent, Some true). split; [exact Hf |].
      intros st0. now apply step2I_item_missing.
Qed.

End Step2IErrors.

Lemma step2I_uncovered_raises (rt : Runtime) (dt : Details)
    (obs_lists : ObservationLists) (relations : dict Fluent Relation) :
  uncovered relations obs_lists -> _step2I rt dt obs_lists relations = Raise KeyError.
Proof.
  intros (t & obs & items & fluent & Ht & Ho & Es & Hf & Hnone).
  unfold _step2I. apply for_each_raises.
  - intros st t' _. apply step2I_trace_ok_or.
  - exists t. split; [exact Ht |]. intros st.
    now apply (step2I_trace_missing rt dt relations t obs items fluent).
Qed.

Lemma step2I_ok_covers (rt : Runtime) (dt : Details)
    (obs_lists : ObservationLists) (relations : dict Fluent Relation)
    (st : list NNF * Support) :
  _step2I rt dt obs_lists relations = Ok st -> covers relations obs_lists.
Proof.
  intros E t obs items fluent Ht Ho Es Hf Hnone.
  rewrite (step2I_uncovered_raises rt dt obs_lists relations) in E; [discriminate |].
  exists t, obs, items, fluent. auto.
Qed.

(** X9.  [_step2I] returns or raises [KeyError], nothing else: the index
    [obs_list[i-1]] is always in range.  It raises [KeyError] as soon as
    some step observes true a fluent missing from [relations], and returns
    when there is none. *)
Theorem step2I_key_error (rt : Runtime) (dt : Details) (obs_lists : ObservationLists)
    (relations : dict Fluent Relation) :
  (_step2I rt dt obs_lists relations = Raise KeyError
   \/ exists st, _step2I rt dt obs_lists relations = Ok st)
  /\ (uncovered relations obs_lists ->
        _step2I rt dt obs_lists relations = Raise KeyError)
  /\ (covers relations obs_lists ->
        exists st, _step2I rt dt obs_lists relations = Ok st).
Proof.
  split; [| split].
  - unfold _step2I. apply for_each_ok_or.
    intros st t _. apply step2I_trace_ok_or.
  - apply step2I_uncovered_raises.
  - intros Hc. destruct (step2I_returns rt dt obs_lists relations Hc) as (sc & E).
    eauto.
Qed.

Lemma step2I_key_error_witness :
  _step2I insertion_order spec_details single_step [] = Raise KeyError
  /\ exists st,
       _step2I insertion_order spec_details corpus (relations_of insertion_order corpus)
       = Ok st.
Proof.
  split.
  - apply (step2I_key_error insertion_order spec_details single_step []).
    exists [mkObs (pick_up (block "a")) (Some [(holding (block "a"), Some true)])],
           (mkObs (pick_up (block "a")) (Some [(holding (block "a"), Some true)])),
           [(holding (block "a"), Some true)], (holding (block "a")).
    repeat split; now left.
  - apply (step2I_key_error insertion_order spec_details corpus
             (relations_of insertion_order corpus)).
    exact corpus_covered.
Defined.

(** *** Support counts *)

Lemma count_up_counted (rt : Runtime) (cs : list NNF) (sc : Support) (c : NNF)
    (r : Relation) (a : Action) (role : string) :
  role = "pre" \/ role = "add" ->
  counted (cs, sc) -> counted ((cs ++ [c])%list, count_up rt sc (r, a, role)).
Proof.
  intros Hrole [Ht Hn]. unfold counted, count_up. cbn [fst snd] in *. split.
  - rewrite counter_total, Ht, length_app. simpl. lia.
  - intros r' a' role' n Hin. apply dict_set_In in Hin.
    destruct Hin as [Hin | [-> Hk]]; [now apply (Hn r' a' role' n) |].
    split.
    + destruct (dict_get (key_same rt) sc (r, a, role)) as [m |] eqn:E; [| lia].
      apply dict_get_In in E. destruct E as ([[r0 a0] role0] & Hin0 & _).
      destruct (Hn r0 a0 role0 m Hin0). lia.
    + destruct Hk as [[= -> -> ->] | Hk]; [exact Hrole |].
      (* the key kept is one already present *)
      destruct (dict_get (key_same rt) sc (r, a, role)) as [m |] eqn:E.
      * unfold key_same in Hk.
        apply andb_true_iff in Hk. destruct Hk as [_ Hk].
        apply andb_true_iff in Hk. destruct Hk as [_ Hk].
        apply String.eqb_eq in Hk. now subst.
      * unfold key_same in Hk.
        apply andb_true_iff in Hk. destruct Hk as [_ Hk].
        apply andb_true_iff in Hk. destruct Hk as [_ Hk].
        apply String.eqb_eq in Hk. now subst.
Qed.

Lemma step2I_item_counted (rt : Runtime) (dt : Details) (relations : dict Fluent Relation)
    (obs_list : list Observation) (i : nat) (obs : Observation)
    (st st' : list NNF * Support) (item : Fluent * option bool) :
  step2I_item rt dt relations obs_list i obs st item = Ok st' ->
  counted st -> counted st'.
Proof.
  destruct st as [cs sc]. destruct item as [fluent val].
  unfold step2I_item. destruct (truthy val); [| now intros [= <-]].
  destruct (collect _ (firstn i obs_list)) as [i1 |]; cbn [bind]; [| discriminate].
  destruct (dict_item fluent_eqb relations fluent) as [r |]; cbn [bind]; [| discriminate].
  destruct (index obs_list (Z.of_nat i - 1)) as [prev |]; cbn [bind]; [| discriminate].
  cbv zeta.
  destruct (Z.of_nat i <? Z.of_nat (List.length obs_list) - 1); cbn [bind];
    intros [= <-] H; apply count_up_counted; auto.
Qed.

Lemma flat_map_enumerate_length {A B C : Type} (g : nat * A -> list B) (h : A -> list C)
    (l : list A) :
  (forall i x, nth_error l i = Some x -> List.length (g (i, x)) = List.length (h x)) ->
  List.length (flat_map g (enumerate l)) = List.length (flat_map h l).
Proof.
  unfold enumerate.
  enough (G : forall n,
             (forall i x, nth_error l i = Some x ->
                          List.length (g ((n + i)%nat, x)) = List.length (h x)) ->
             List.length (flat_map g (combine (seq n (List.length l)) l))
             = List.length (flat_map h l)).
  { intros H. apply (G 0%nat). exact H. }
  induction l as [| x l IH]; intros n H; [reflexivity |].
  cbn [List.length seq combine flat_map]. rewrite !length_app.
  rewrite <- (H 0%nat x eq_refl), Nat.add_0_r. f_equal.
  apply IH. intros i y Hy. rewrite <- (H (S i) y Hy). do 3 f_equal. lia.
Qed.

Lemma items_constraints_length (dt : Details) (relations : dict Fluent Relation)
    (obs_list : list Observation) (i : nat) (obs : Observation)
    (items : list (Fluent * option bool)) :
  nth_error obs_list i = Some obs ->
  (forall fluent, In (fluent, Some true) items ->
     dict_get fluent_eqb relations fluent <> None) ->
  List.length (flat_map (item_constraints dt relations obs_list i) items)
  = List.length (filter (fun item => truthy (snd item)) items).
Proof.
  intros Hi. destruct (index_before obs_list i obs Hi) as (prev & Eb & _).
  induction items as [| [fluent val] items IH]; intros Hcov; [reflexivity |].
  cbn [flat_map filter snd]. rewrite length_app, IH by (intros f Hf; apply Hcov; now right).
  unfold item_constraints. cbn [fst snd]. rewrite Eb.
  destruct (truthy val) eqn:Ev; [| reflexivity].
  apply truthy_true in Ev. subst val.
  destruct (dict_get fluent_eqb relations fluent) eqn:Er; [reflexivity |].
  destruct (Hcov fluent (or_introl eq_refl) Er).
Qed.

Lemma step2I_constraints_length (dt : Details) (relations : dict Fluent Relation)
    (obs_lists : ObservationLists) :
  covers relations obs_lists ->
  List.length (flat_map (trace_constraints dt relations) (traces obs_lists))
  = true_observations obs_lists.
Proof.
  unfold covers, true_observations. intros Hcov.
  induction (traces obs_lists) as [| t ts IH]; [reflexivity |].
  cbn [flat_map]. rewrite !length_app.
  rewrite IH by (intros t' o its f Ht'; apply Hcov; now right). f_equal.
  unfold trace_constraints. apply flat_map_enumerate_length.
  intros i obs Hi. unfold obs_constraints, true_items. cbn [fst snd].
  destruct (obs_state obs) as [items |] eqn:Es; [| reflexivity].
  apply (items_constraints_length dt relations t i obs items Hi).
  intros fluent Hf. apply (Hcov t obs items fluent); auto.
  - now left.
  - now apply nth_error_In in Hi.
Qed.

(** X10.  When [_step2I] returns, it has emitted one constraint and counted
    one support for each time the corpus observes a fluent true: the
    number of constraints is the number of true observations, the support
    counts add up to it, every count is at least 1 and every key carries
    the role "pre" or "add". *)
Theorem step2I_counts (rt : Runtime) (dt : Details) (obs_lists : ObservationLists)
    (relations : dict Fluent Relation) (constraints : list NNF) (support_counts : Support) :
  _step2I rt dt obs_lists relations = Ok (constraints, support_counts) ->
  List.length constraints = true_observations obs_lists
  /\ total (values support_counts) = Z.of_nat (List.length constraints)
  /\ (forall r a role n, In ((r, a, role), n) support_counts ->
        1 <= n /\ (role = "pre" \/ role = "add")).
Proof.
  intros E. split.
  - pose proof (step2I_ok_covers rt dt obs_lists relations _ E) as Hc.
    destruct (step2I_returns rt dt obs_lists relations Hc) as (sc & E').
    rewrite E in E'. injection E' as -> _.
    now apply step2I_constraints_length.
  - apply (for_each_inv counted (traces obs_lists)
             (fun st obs_list =>
                for_each (enumerate obs_list) (step2I_obs rt dt relations obs_list) st)
             ) with (st := ([], [])) (st' := (constraints, support_counts)).
    + intros st t st' _ Et. revert Et. apply for_each_inv.
      intros st0 [i obs] st1 _. unfold step2I_obs.
      destruct (obs_state obs) as [items |]; [| now intros [= <-]].
      apply for_each_inv. intros st2 item st3 _. apply step2I_item_counted.
    + exact E.
    + split; [reflexivity | intros ? ? ? ? []].
Qed.

Lemma step2I_counts_witness :
  exists constraints support_counts,
    _step2I insertion_order spec_details corpus (relations_of insertion_order corpus)
    = Ok (constraints, support_counts)
    /\ List.length constraints = true_observations corpus
    /\ total (values support_counts) = Z.of_nat (List.length constraints).
Proof.
  exists [ And [Or [Var "holding object_in_add_pick-up object a" true];
                Var "holding object_notin_del_pick-up object a" true];
           And [Or [Var "holding object_in_add_pick-up object b" true];
                Var "holding object_notin_del_pick-up object b" true] ],
         [ ((mkRelation "holding" ["object"], pick_up (block "a"), "add"), 1);
           ((mkRelation "holding" ["object"], pick_up (block "b"), "add"), 1) ].
  assert (E : _step2I insertion_order spec_details corpus
                (relations_of insertion_order corpus)
              = Ok ([ And [Or [Var "holding object_in_add_pick-up object a" true];
                           Var "holding object_notin_del_pick-up object a" true];
                      And [Or [Var "holding object_in_add_pick-up object b" true];
                           Var "holding object_notin_del_pick-up object b" true] ],
                    [ ((mkRelation "holding" ["object"], pick_up (block "a"), "add"), 1);
                      ((mkRelation "holding" ["object"], pick_up (block "b"), "add"), 1) ]))
    by (vm_compute; reflexivity).
  split; [exact E |].
  destruct (step2I_counts insertion_order spec_details corpus
              (relations_of insertion_order corpus) _ _ E) as (H1 & H2 & _).
  split; [exact H1 | exact H2].
Defined.

(** ** Further properties of [_step2], [_arms], [ARMS] *)

Lemma object_eqb_eq (a b : PlanningObject) : object_eqb a b = true <-> a = b.
Proof.
  unfold object_eqb. rewrite andb_true_iff, !String.eqb_eq.
  destruct a, b; simpl. split; [intros [-> ->]; reflexivity | intros [= -> ->]; auto].
Qed.

Lemma objects_eqb_eq (xs ys : list PlanningObject) : objects_eqb xs ys = true <-> xs = ys.
Proof.
  revert ys. induction xs as [| x xs IH]; intros [| y ys]; simpl;
    try (split; [discriminate | discriminate]); [tauto |].
  rewrite andb_true_iff, object_eqb_eq, IH.
  split; [intros [-> ->]; reflexivity | intros [= -> ->]; auto].
Qed.

Lemma fluent_eqb_eq (f g : Fluent) : fluent_eqb f g = true <-> f = g.
Proof.
  unfold fluent_eqb. rewrite andb_true_iff, String.eqb_eq, objects_eqb_eq.
  destruct f, g; simpl. split; [intros [-> ->]; reflexivity | intros [= -> ->]; auto].
Qed.

(** The relations [_step2] builds cover every fluent the corpus observes. *)
Lemma relations_of_covers (rt : Runtime) (Hrt : lawful rt) (obs_lists : ObservationLists) :
  covers (relations_of rt obs_lists) obs_lists.
Proof.
  intros t obs items fluent Ht Ho Es Hf.
  unfold relations_of. apply (dict_of_covers fluent_eqb fluent_eqb_eq).
  rewrite map_map. cbn [fst]. rewrite map_id.
  unfold get_fluents, py_set. apply (set_iter_In rt Hrt).
  apply (distinct_In fluent_eqb fluent_eqb_eq). right.
  apply in_flat_map. exists t. split; [exact Ht |].
  apply in_flat_map. exists obs. split; [exact Ho |].
  rewrite Es. apply in_map_iff. exists (fluent, Some true). auto.
Qed.

(** X11.  [ARMS] rejects a corpus of any token type but
    [PartialObservation] with [IncompatibleObservationToken]; on a
    partial-observation corpus it never raises, [KeyError] included, since
    the relations it builds cover every fluent of the corpus, and it
    returns the corpus's fluents with an empty action set. *)
Theorem ARMS_outcome (rt : Runtime) (Hrt : lawful rt) (dt : Details)
    (obs_lists : ObservationLists) :
  ARMS rt dt obs_lists
  = match ol_type obs_lists with
    | PartialObservation => Ok (mkModel (get_fluents rt obs_lists) [])
    | _ => Raise IncompatibleObservationToken
    end.
Proof.
  unfold ARMS. destruct (ol_type obs_lists); try reflexivity.
  unfold _arms, _get_fluents, _step2.
  destruct (step2I_returns rt dt obs_lists (relations_of rt obs_lists)
              (relations_of_covers rt Hrt obs_lists)) as (sc & E).
  unfold relations_of in E. cbv zeta. rewrite E. reflexivity.
Qed.

Lemma ARMS_outcome_witness :
  ARMS insertion_order spec_details single_step
  = Ok (mkModel (get_fluents insertion_order single_step) [])
  /\ ARMS insertion_order spec_details
          (mkObsLists IdentityObservation (traces single_step))
     = Raise IncompatibleObservationToken.
Proof.
  split.
  - apply (ARMS_outcome insertion_order insertion_order_lawful spec_details single_step).
  - apply (ARMS_outcome insertion_order insertion_order_lawful spec_details
             (mkObsLists IdentityObservation (traces single_step))).
Defined.

End ArmsFacts.

Module ProgressFacts.
Import Progress.

Section Loop.
Context {A : Type}.

(** Whatever the float arithmetic does, the values come out in the
    iterable's order, starting from its first: the run yields a prefix. *)
Lemma loop_yields_prefix (total : Total) (xs : list A) :
  forall it prev, exists rest, xs = (yielded (loop total xs it prev) ++ rest)%list.
Proof.
  induction xs as [| i xs IH]; simpl; intros it prev.
  - exists []. reflexivity.
  - destruct total as [| n | f].
    + destruct (IH (it + 1) prev) as (rest & E). exists rest. simpl. now f_equal.
    + destruct (progress_digit it (IntTotal n)) as [new | e].
      * destruct (negb (new =? prev)).
        -- destruct (IH (it + 1) new) as (rest & E). exists rest. simpl. now f_equal.
        -- destruct (IH (it + 1) prev) as (rest & E). exists rest. simpl. now f_equal.
      * exists xs. reflexivity.
    + destruct (progress_digit it (FloatTotal f)) as [new | e].
      * destruct (negb (new =? prev)).
        -- destruct (IH (it + 1) new) as (rest & E). exists rest. simpl. now f_equal.
        -- destruct (IH (it + 1) prev) as (rest & E). exists rest. simpl. now f_equal.
      * exists xs. reflexivity.
Qed.

(** A run that ends normally has yielded every element. *)
Lemma loop_complete (total : Total) (xs : list A) :
  forall it prev, outcome (loop total xs it prev) = Ok tt ->
                  yielded (loop total xs it prev) = xs.
Proof.
  induction xs as [| i xs IH]; simpl; intros it prev; [reflexivity |].
  destruct total as [| n | f].
  - simpl. intros H. f_equal. now apply IH.
  - destruct (progress_digit it (IntTotal n)) as [new | e]; [| discriminate].
    destruct (negb (new =? prev)); simpl; intros H; f_equal; now apply IH.
  - destruct (progress_digit it (FloatTotal f)) as [new | e]; [| discriminate].
    destruct (negb (new =? prev)); simpl; intros H; f_equal; now apply IH.
Qed.

(** Without [__len__] nothing is divided and nothing printed: the wrapper
    is transparent. *)
Lemma unsized_transparent (of_int : Z -> A) (xs : list A) :
  vanilla_progress of_int (Unsized xs) = mkRun xs [] (Ok tt).
Proof.
  unfold vanilla_progress. simpl. generalize 1 0.
  induction xs as [| i xs IH]; simpl; intros it prev; [reflexivity |].
  rewrite IH. reflexivity.
Qed.

End Loop.

(** C10 (the code at the failing input).  [range(100000)] has 100000
    elements; the wrapper yields the first, then computes
    [str(1 / 100000.0)], which is ["1e-05"], takes its character at index 2,
    a minus sign, and [int] raises [ValueError]: the other 99999 elements
    are never yielded.  The same happens for a list of that length, and
    for [range(0, 1, 16)], where the string is ["16.0"]. *)
Theorem vanilla_progress_raises_mid_iteration :
  let bad := Raise (ValueError "invalid literal for int() with base 10") in
  List.length (items id (PyRange 0 100000 1)) = Z.to_nat 100000
  /\ float_str (PrimFloat.div (float_of_Z 1) (float_of_Z 100000)) = "1e-05"
  /\ yielded (vanilla_progress id (PyRange 0 100000 1)) = [0]
  /\ outcome (vanilla_progress id (PyRange 0 100000 1)) = bad
  /\ yielded (vanilla_progress id (Sized (repeat 7 (Z.to_nat 100000)))) = [7]
  /\ outcome (vanilla_progress id (Sized (repeat 7 (Z.to_nat 100000)))) = bad
  /\ items id (PyRange 0 1 16) = [0]
  /\ outcome (vanilla_progress id (PyRange 0 1 16)) = bad.
Proof. repeat split; vm_compute; reflexivity. Qed.

(** On a short list the wrapper is transparent and prints the tenths. *)
Example vanilla_progress_three :
  vanilla_progress id (Sized [10; 20; 30])
  = mkRun [10; 20; 30] ["30% ..."; "60% ..."; "100%"] (Ok tt).
Proof. vm_compute. reflexivity. Qed.

(** A range of large ints: [range(0, 2**70, 2**68)] has four elements and
    total [4.0]; all four are yielded. *)
Example vanilla_progress_large_step :
  vanilla_progress id (PyRange 0 (2 ^ 70) (2 ^ 68))
  = mkRun [0; 2 ^ 68; 2 * 2 ^ 68; 3 * 2 ^ 68]
          ["20% ..."; "50% ..."; "70% ..."; "100%"] (Ok tt).
Proof. vm_compute. reflexivity. Qed.

(** ** Further properties of [vanilla_progress] *)

Lemma loop_first {A : Type} (total : Total) (i : A) (xs : list A) (it prev : Z) :
  exists rest, yielded (loop total (i :: xs) it prev) = i :: rest.
Proof.
  cbn [loop]. destruct total as [| n | f].
  - eexists. reflexivity.
  - destruct (progress_digit it (IntTotal n)) as [new |]; [| eexists; reflexivity].
    destruct (negb (new =? prev)); eexists; reflexivity.
  - destruct (progress_digit it (FloatTotal f)) as [new |]; [| eexists; reflexivity].
    destruct (negb (new =? prev)); eexists; reflexivity.
Qed.

(** X12.  Whatever happens while the progress is computed, the wrapper
    never reorders, alters or invents a value: what it yields is a prefix
    of what the iterable yields, and when iteration ends without an
    exception every element was yielded.  The total is computed before the
    first value: when that raises (the quotient of a range too large for a
    float, as for [range(2**1024)]) nothing is yielded, and otherwise the
    first element is always delivered. *)
Theorem vanilla_progress_yields_prefix (A : Type) (of_int : Z -> A)
    (iterable : Iterable A) :
  let run := vanilla_progress of_int iterable in
  (exists rest, items of_int iterable = (yielded run ++ rest)%list)
  /\ (outcome run = Ok tt -> yielded run = items of_int iterable)
  /\ (forall total, total_of iterable = Ok total ->
        hd_error (yielded run) = hd_error (items of_int iterable))
  /\ (forall e, total_of iterable = Raise e -> run = mkRun [] [] (Raise e))
  /\ (forall xs : list A, total_of (Sized xs) = Ok (IntTotal (Z.of_nat (List.length xs)))
                          /\ total_of (Unsized xs) = Ok NoTotal)
  /\ vanilla_progress of_int (PyRange 0 (2 ^ 1024) 1) = mkRun [] [] (Raise OverflowError).
Proof.
  unfold vanilla_progress.
  split; [| split; [| split; [| split; [| split]]]].
  - destruct (total_of iterable) as [total | e]; cbn [yielded].
    + apply loop_yields_prefix.
    + now exists (items of_int iterable).
  - destruct (total_of iterable) as [total | e]; cbn [yielded outcome].
    + apply loop_complete.
    + discriminate.
  - intros total ->.
    destruct (items of_int iterable) as [| i xs]; [reflexivity |].
    destruct (loop_first total i xs 1 0) as (rest & E). now rewrite E.
  - now intros e ->.
  - intros xs. split; reflexivity.
  - vm_compute. reflexivity.
Qed.

(** X13.  Over an iterable that is neither a range nor has a length (a
    generator), the wrapper yields every element, prints nothing and ends
    normally. *)
Theorem vanilla_progress_unsized (A : Type) (of_int : Z -> A) (xs : list A) :
  vanilla_progress of_int (Unsized xs) = mkRun xs [] (Ok tt).
Proof. exact (unsized_transparent of_int xs). Qed.

(** *** What is printed *)





(** *** Short inputs *)

Lemma loop_computable {A : Type} (total : Total) (xs : list A) :
  forall it prev,
    (forall k, (k < List.length xs)%nat ->
               exists d, progress_digit (it + Z.of_nat k) total = Ok d) ->
    yielded (loop total xs it prev) = xs /\ outcome (loop total xs it prev) = Ok tt.
Proof.
  induction xs as [| i xs IH]; intros it prev H; cbn [loop]; [auto |].
  assert (Hrest : forall p, yielded (loop total xs (it + 1) p) = xs
                            /\ outcome (loop total xs (it + 1) p) = Ok tt).
  { intros p. apply IH. intros k Hk.
    destruct (H (S k)) as (d & E); [simpl; lia |].
    exists d. rewrite <- E. f_equal. lia. }
  destruct (H 0%nat) as (d & E); [simpl; lia |].
  rewrite Z.add_0_r in E.
  destruct total as [| n | f].
  - destruct (Hrest prev) as [Hy Ho]. cbn [yield yielded outcome]. now rewrite Hy, Ho.
  - rewrite E. destruct (negb (d =? prev)).
    + destruct (Hrest d) as [Hy Ho]. cbn [yield yielded outcome]. now rewrite Hy, Ho.
    + destruct (Hrest prev) as [Hy Ho]. cbn [yield yielded outcome]. now rewrite Hy, Ho.
  - rewrite E. destruct (negb (d =? prev)).
    + destruct (Hrest d) as [Hy Ho]. cbn [yield yielded outcome]. now rewrite Hy, Ho.
    + destruct (Hrest prev) as [Hy Ho]. cbn [yield yielded outcome]. now rewrite Hy, Ho.
Qed.

Lemma digits_computable_spec (total : Total) (n : nat) :
  digits_computable total n = true ->
  forall k, (k < n)%nat -> exists d, progress_digit (1 + Z.of_nat k) total = Ok d.
Proof.
  unfold digits_computable. rewrite forallb_forall. intros H k Hk.
  specialize (H k). rewrite in_seq in H.
  destruct (progress_digit (1 + Z.of_nat k) total) as [d |]; [eauto |].
  discriminate H. lia.
Qed.

Lemma lists_computable_spec (bound : nat) :
  lists_computable bound = true ->
  forall n, (n <= bound)%nat -> digits_computable (IntTotal (Z.of_nat n)) n = true.
Proof.
  unfold lists_computable. rewrite forallb_forall. intros H n Hn.
  apply (H n). apply in_seq. lia.
Qed.

Lemma ranges_computable_spec (bound : nat) :
  ranges_computable bound = true ->
  forall n, (n <= bound)%nat ->
    exists total, int_true_div (Z.of_nat n - 0) 1 = Ok total
                  /\ digits_computable (FloatTotal total) n = true.
Proof.
  unfold ranges_computable. rewrite forallb_forall. intros H n Hn.
  specialize (H n). rewrite in_seq in H.
  destruct (int_true_div (Z.of_nat n - 0) 1) as [total |].
  - exists total. split; [reflexivity | apply H; lia].
  - discriminate H. lia.
Qed.

Lemma lists_computable_20 : lists_computable 20 = true.
Proof. vm_cast_no_check (@eq_refl bool true). Qed.

Lemma ranges_computable_20 : ranges_computable 20 = true.
Proof. vm_cast_no_check (@eq_refl bool true). Qed.

Lemma sized_run {A : Type} (of_int : Z -> A) (xs : list A) :
  vanilla_progress of_int (Sized xs)
  = loop (IntTotal (Z.of_nat (List.length xs))) xs 1 0.
Proof. reflexivity. Qed.

Lemma range_run {A : Type} (of_int : Z -> A) (n : nat) (total : float) :
  int_true_div (Z.of_nat n - 0) 1 = Ok total ->
  vanilla_progress of_int (PyRange 0 (Z.of_nat n) 1)
  = loop (FloatTotal total) (map (fun i => of_int (Z.of_nat i)) (seq 0 n)) 1 0.
Proof.
  intros Et. unfold vanilla_progress, total_of, items.
  rewrite Et. cbn [bind].
  assert (El : Z.to_nat (range_len 0 (Z.of_nat n) 1) = n).
  { unfold range_len. change (0 <? 1) with true. cbv iota.
    destruct (Z.ltb_spec 0 (Z.of_nat n)); [| lia].
    rewrite Z.div_1_r. lia. }
  rewrite El. f_equal.
  apply map_ext. intros i. f_equal. lia.
Qed.

(** X15.  Over a list of at most 20 elements, and over [range(n)] with
    [n] at most 20, the progress digit can be computed at every position:
    the wrapper yields every element and ends normally. *)
Theorem vanilla_progress_short_inputs (A : Type) (of_int : Z -> A) :
  (forall xs : list A,
     (List.length xs <= 20)%nat ->
     yielded (vanilla_progress of_int (Sized xs)) = xs
     /\ outcome (vanilla_progress of_int (Sized xs)) = Ok tt)
  /\ (forall n : nat,
        (n <= 20)%nat ->
        yielded (vanilla_progress of_int (PyRange 0 (Z.of_nat n) 1))
        = map (fun i => of_int (Z.of_nat i)) (seq 0 n)
        /\ outcome (vanilla_progress of_int (PyRange 0 (Z.of_nat n) 1)) = Ok tt).
Proof.
  split.
  - intros xs Hlen. rewrite sized_run.
    apply loop_computable. apply digits_computable_spec.
    exact (lists_computable_spec 20 lists_computable_20 _ Hlen).
  - intros n Hn.
    destruct (ranges_computable_spec 20 ranges_computable_20 _ Hn) as (total & Et & Hd).
    rewrite (range_run of_int n total Et).
    apply loop_computable. rewrite length_map, length_seq.
    apply digits_computable_spec. exact Hd.
Qed.

Lemma three_at_most_20 : (List.length [10; 20; 30] <= 20)%nat.
Proof. simpl. lia. Qed.

Lemma vanilla_progress_short_inputs_witness :
  yielded (vanilla_progress id (Sized [10; 20; 30])) = [10; 20; 30]
  /\ outcome (vanilla_progress id (Sized [10; 20; 30])) = Ok tt.
Proof.
  exact (proj1 (vanilla_progress_short_inputs Z id) [10; 20; 30] three_at_most_20).
Defined.

End ProgressFacts.
